(** * isuexporter: a file span exporter for OpenTelemetry traces

    A shallow embedding of [isuexporter.go] together with the parts of the
    Go runtime it runs on: [os.File] (creation, positioned writes, close),
    [encoding/json] ([MarshalIndent] of the map built by [spanToMap]),
    [time.Time] and [attribute.KeyValue] marshalling, and the tracing SDK's
    provider with its batching span processor.

    Go strings are byte sequences: they are [string]s here (an [ascii] is
    one byte).  A [[]byte] is a [list ascii].  A Go function that may panic
    returns an [outcome]; an [error] result is an [option error], [None]
    being Go's [nil]. *)

From Stdlib Require Import ZArith NArith Ascii String List Lia.
From stdpp Require Import base option gmap strings list sorting.

Open Scope Z_scope.
Open Scope list_scope.

(* ===================================================================== *)
(** ** Bytes and decimal numerals *)
(* ===================================================================== *)

Abbreviation bytes := (list ascii).

Definition B (s : string) : bytes := list_ascii_of_string s.

Definition byte_val (c : ascii) : Z := Z.of_N (N_of_ascii c).

Definition byte_of (z : Z) : ascii := ascii_of_N (Z.to_N z).

Definition digit (d : Z) : ascii := byte_of (48 + d mod 10).

(** The last [w] decimal digits of [n], most significant first. *)
Fixpoint dec (w : nat) (n : Z) : bytes :=
  match w with
  | O => []
  | S w' => dec w' (n / 10) ++ [digit n]
  end.

Fixpoint ndigits_loop (fuel : nat) (n : Z) : nat :=
  match fuel with
  | O => 1
  | S fuel' => if n <? 10 then 1 else S (ndigits_loop fuel' (n / 10))
  end.

(** The number of decimal digits of [n >= 0]; dividing by ten shortens
    the binary numeral, so [Z.log2 n] rounds are enough. *)
Definition ndigits (n : Z) : nat := ndigits_loop (Z.to_nat (Z.log2 n)) n.

(** [strconv]'s unsigned decimal numeral. *)
Definition utoa (n : Z) : bytes := dec (ndigits n) n.

(** [strconv.AppendInt(b, n, 10)]. *)
Definition itoa (n : Z) : bytes :=
  if n <? 0 then B "-" ++ utoa (- n) else utoa n.

(* ===================================================================== *)
(** ** time.Time and its RFC 3339 text *)
(* ===================================================================== *)

(** What [Time.Format] reads from a [time.Time]: the civil date and clock
    in the time's own location, and that location's offset from UTC in
    seconds.  The monotonic clock reading is not part of it. *)
Record Time := {
  t_year : Z;
  t_month : Z;
  t_day : Z;
  t_hour : Z;
  t_minute : Z;
  t_second : Z;
  t_nanosecond : Z;
  t_offset : Z
}.

Definition isLeap (y : Z) : bool :=
  (y mod 4 =? 0) && (negb (y mod 100 =? 0) || (y mod 400 =? 0)).

Definition daysIn (m y : Z) : Z :=
  if m =? 2 then (if isLeap y then 29 else 28)
  else if (m =? 4) || (m =? 6) || (m =? 9) || (m =? 11) then 30
  else 31.

Definition in_range (lo x hi : Z) : bool := (lo <=? x) && (x <=? hi).

(** Every [time.Time] denotes a real calendar date and clock reading. *)
Definition valid_time (t : Time) : bool :=
  in_range 1 (t_month t) 12 &&
  in_range 1 (t_day t) (daysIn (t_month t) (t_year t)) &&
  in_range 0 (t_hour t) 23 &&
  in_range 0 (t_minute t) 59 &&
  in_range 0 (t_second t) 59 &&
  in_range 0 (t_nanosecond t) 999999999.

(** [time.appendInt]: sign, then the magnitude in at least [width]
    digits, zeros in front. *)
Definition appendInt (x : Z) (width : nat) : bytes :=
  (if x <? 0 then B "-" else [])
  ++ dec (Nat.max width (ndigits (Z.abs x))) (Z.abs x).

Fixpoint trim_zeros_rev (r : bytes) : bytes :=
  match r with
  | c :: r' => if Ascii.eqb c "0" then trim_zeros_rev r' else r
  | [] => []
  end.

(** [time.appendNano] for the layout [.999999999]: nothing for a whole
    second, else the nine digits without their trailing zeros. *)
Definition appendNano (nanosec : Z) : bytes :=
  if nanosec =? 0 then []
  else B "." ++ rev (trim_zeros_rev (rev (appendInt nanosec 9))).

(** The zone at the end of [Time.appendFormatRFC3339]: [Z] for UTC, else
    the offset in whole minutes as a signed [hh:mm]. *)
Definition appendZone (offset : Z) : bytes :=
  if offset =? 0 then B "Z"
  else
    let zone := Z.quot offset 60 in
    (if zone <? 0 then B "-" else B "+") ++
    appendInt (Z.abs zone / 60) 2 ++ B ":" ++ appendInt (Z.abs zone mod 60) 2.

(** [Time.appendFormatRFC3339(b, true)]. *)
Definition appendFormatRFC3339 (t : Time) : bytes :=
  appendInt (t_year t) 4 ++ B "-" ++ appendInt (t_month t) 2 ++ B "-" ++
  appendInt (t_day t) 2 ++ B "T" ++
  appendInt (t_hour t) 2 ++ B ":" ++ appendInt (t_minute t) 2 ++ B ":" ++
  appendInt (t_second t) 2 ++ appendNano (t_nanosecond t) ++
  appendZone (t_offset t).

(** The two checks of [Time.appendStrictRFC3339], read off the text as the
    library reads them: the fifth byte must be the dash after a four-digit
    year, and a numeric zone must be a sign and an hour below 24. *)
Definition strictRFC3339_error (b : bytes) : option string :=
  if negb (bool_decide (b !! 4%nat = Some "-"%char))
  then Some "year outside of range [0,9999]"%string
  else if bool_decide (last b = Some "Z"%char) then None
  else
    let z := drop (length b - 6) b in
    match z with
    | [c; h1; h0; _; _; _] =>
        if in_range 48 (byte_val c) 57
           || (24 <=? 10 * (byte_val h1 - 48) + (byte_val h0 - 48))
        then Some "timezone hour outside of range [0,23]"%string
        else None
    | _ => Some "timezone hour outside of range [0,23]"%string
    end.

(* ===================================================================== *)
(** ** UTF-8 and JSON string literals *)
(* ===================================================================== *)

Definition RuneError : Z := 0xFFFD.

(** [utf8.DecodeRuneInString]: the rune at the head of [s] and its width
    in bytes; [(RuneError, 1)] for a byte that starts no well-formed
    sequence (overlong forms, surrogates and values above U+10FFFF are
    ill-formed). *)
Definition DecodeRune (s : bytes) : Z * nat :=
  match s with
  | [] => (RuneError, 0%nat)
  | c0 :: s1 =>
      let b0 := byte_val c0 in
      if b0 <? 0x80 then (b0, 1%nat)
      else if in_range 0xC2 b0 0xDF then
        match s1 with
        | c1 :: _ =>
            if in_range 0x80 (byte_val c1) 0xBF
            then ((b0 - 0xC0) * 64 + (byte_val c1 - 0x80), 2%nat)
            else (RuneError, 1%nat)
        | _ => (RuneError, 1%nat)
        end
      else if in_range 0xE0 b0 0xEF then
        match s1 with
        | c1 :: c2 :: _ =>
            if in_range (if b0 =? 0xE0 then 0xA0 else 0x80) (byte_val c1)
                        (if b0 =? 0xED then 0x9F else 0xBF)
               && in_range 0x80 (byte_val c2) 0xBF
            then ((b0 - 0xE0) * 4096 + (byte_val c1 - 0x80) * 64
                  + (byte_val c2 - 0x80), 3%nat)
            else (RuneError, 1%nat)
        | _ => (RuneError, 1%nat)
        end
      else if in_range 0xF0 b0 0xF4 then
        match s1 with
        | c1 :: c2 :: c3 :: _ =>
            if in_range (if b0 =? 0xF0 then 0x90 else 0x80) (byte_val c1)
                        (if b0 =? 0xF4 then 0x8F else 0xBF)
               && in_range 0x80 (byte_val c2) 0xBF
               && in_range 0x80 (byte_val c3) 0xBF
            then ((b0 - 0xF0) * 262144 + (byte_val c1 - 0x80) * 4096
                  + (byte_val c2 - 0x80) * 64 + (byte_val c3 - 0x80), 4%nat)
            else (RuneError, 1%nat)
        | _ => (RuneError, 1%nat)
        end
      else (RuneError, 1%nat)
  end.

Definition invalid_rune (d : Z * nat) : bool :=
  (fst d =? RuneError) && (snd d =? 1)%nat.

(** [utf8.ValidString]. *)
Fixpoint valid_utf8_loop (fuel : nat) (s : bytes) : bool :=
  match fuel, s with
  | _, [] => true
  | O, _ => false
  | S fuel', _ =>
      let d := DecodeRune s in
      negb (invalid_rune d) && valid_utf8_loop fuel' (drop (snd d) s)
  end.

Definition ValidString (s : string) : bool :=
  valid_utf8_loop (length (B s)) (B s).

Definition hex (n : Z) : ascii :=
  if n <? 10 then byte_of (48 + n) else byte_of (87 + n).

(** One byte below [utf8.RuneSelf] inside a string literal, with HTML
    escaping on (the default of [json.Marshal]). *)
Definition escape_byte (c : ascii) : bytes :=
  let b := byte_val c in
  if (b =? 92) || (b =? 34) then ["\"%char; c]
  else if b =? 8 then B "\b"
  else if b =? 12 then B "\f"
  else if b =? 10 then B "\n"
  else if b =? 13 then B "\r"
  else if b =? 9 then B "\t"
  else if (b <? 32) || (b =? 60) || (b =? 62) || (b =? 38)
  then B "\u00" ++ [hex (b / 16); hex (b mod 16)]
  else [c].

(** The six bytes backslash, u, f, f, f, d. *)
Definition replacement_escape : bytes :=
  ["\"%char; "u"%char; "f"%char; "f"%char; "f"%char; "d"%char].

(** The loop of [json.appendString]: index [i] of the Go code is the
    distance already dropped from the source. *)
Fixpoint appendString_loop (fuel : nat) (src : bytes) : bytes :=
  match fuel, src with
  | _, [] => []
  | O, _ => []
  | S fuel', c :: rest =>
      if byte_val c <? 0x80 then escape_byte c ++ appendString_loop fuel' rest
      else
        let d := DecodeRune src in
        if invalid_rune d then replacement_escape ++ appendString_loop fuel' rest
        else if (fst d =? 0x2028) || (fst d =? 0x2029)
        then B "\u202" ++ [hex (fst d mod 16)]
             ++ appendString_loop fuel' (drop (snd d) src)
        else take (snd d) src ++ appendString_loop fuel' (drop (snd d) src)
  end.

Definition quote : ascii := "034"%char.

Definition appendString (s : string) : bytes :=
  [quote] ++ appendString_loop (length (B s)) (B s) ++ [quote].

(* ===================================================================== *)
(** ** JSON documents and their indented text *)
(* ===================================================================== *)

#[local] Set Warnings "-register-all".

Inductive json :=
| JNull
| JBool (b : bool)
| JNumber (lit : bytes)
| JString (s : string)
| JArray (items : list json)
| JObject (members : list (string * json)).

Definition appendNewline (prefix indent : bytes) (depth : nat) : bytes :=
  B (String "010" "") ++ prefix ++ concat (replicate depth indent).

(** [json.Indent] applied to the compact encoding of a document: a line
    break and one more level after an opening bracket and after each comma,
    a space after each colon, and nothing inside an empty array or object. *)
Fixpoint indented (prefix indent : bytes) (depth : nat) (j : json) : bytes :=
  match j with
  | JNull => B "null"
  | JBool true => B "true"
  | JBool false => B "false"
  | JNumber lit => lit
  | JString s => appendString s
  | JArray [] => B "[]"
  | JArray (x :: xs) =>
      B "[" ++ appendNewline prefix indent (S depth)
      ++ indented prefix indent (S depth) x
      ++ (fix more (l : list json) : bytes :=
            match l with
            | [] => []
            | y :: l' =>
                B "," ++ appendNewline prefix indent (S depth)
                ++ indented prefix indent (S depth) y ++ more l'
            end) xs
      ++ appendNewline prefix indent depth ++ B "]"
  | JObject [] => B "{}"
  | JObject ((k, x) :: xs) =>
      B "{" ++ appendNewline prefix indent (S depth)
      ++ appendString k ++ B ": " ++ indented prefix indent (S depth) x
      ++ (fix more (l : list (string * json)) : bytes :=
            match l with
            | [] => []
            | (k', y) :: l' =>
                B "," ++ appendNewline prefix indent (S depth)
                ++ appendString k' ++ B ": "
                ++ indented prefix indent (S depth) y ++ more l'
            end) xs
      ++ appendNewline prefix indent depth ++ B "}"
  end.

(* ===================================================================== *)
(** ** Errors and results *)
(* ===================================================================== *)

Inductive error :=
| ErrorString (msg : string)
| UnsupportedValueError (str : string)
| MarshalerError (type : string) (err : error) (sourceFunc : string)
| PathError (op path : string) (err : error)
| ErrInvalid
| ErrClosed
| ENOENT
| EACCES
| EISDIR
| ENOSPC
| Canceled.

Inductive result (A : Type) :=
| Ok (a : A)
| Err (e : error).

Arguments Ok {A} a.
Arguments Err {A} e.

Definition rbind {A C} (r : result A) (k : A -> result C) : result C :=
  match r with
  | Ok a => k a
  | Err e => Err e
  end.

Fixpoint rmap {A C} (f : A -> result C) (l : list A) : result (list C) :=
  match l with
  | [] => Ok []
  | x :: l' =>
      rbind (f x) (fun y => rbind (rmap f l') (fun ys => Ok (y :: ys)))
  end.

(* ===================================================================== *)
(** ** Numbers in JSON *)
(* ===================================================================== *)

(** A [float64] as [strconv] sees it: not a number, an infinity, or a
    finite value given by its sign and its shortest decimal digits
    [d1 ... dn] with the position [dp] of the decimal point, the value
    being [0.d1...dn * 10^dp]; zero has no digits and [dp = 0]. *)
Inductive float64 :=
| NaN
| Inf (neg : bool)
| Finite (neg : bool) (d : list Z) (dp : Z).

(** [strconv]'s [%f] with the shortest precision. *)
Definition fmtF (neg : bool) (d : list Z) (dp : Z) : bytes :=
  let nd := Z.of_nat (length d) in
  (if neg then B "-" else []) ++
  (if 0 <? dp
   then map digit (take (Z.to_nat dp) d) ++ replicate (Z.to_nat (dp - nd)) "0"%char
   else B "0") ++
  (if 0 <? nd - dp
   then B "." ++ replicate (Z.to_nat (- dp)) "0"%char
        ++ map digit (drop (Z.to_nat dp) d)
   else []).

(** [strconv]'s [%e] with the shortest precision. *)
Definition fmtE (neg : bool) (d : list Z) (dp : Z) : bytes :=
  let exp := match d with [] => 0 | _ => dp - 1 end in
  (if neg then B "-" else []) ++
  match d with
  | [] => B "0"
  | d0 :: ds => digit d0 :: match ds with [] => [] | _ => B "." ++ map digit ds end
  end ++
  B "e" ++ (if exp <? 0 then B "-" else B "+") ++
  (if Z.abs exp <? 10 then B "0" else []) ++ utoa (Z.abs exp).

(** The clean-up of [e-09] to [e-9] in [encoding/json]'s float encoder. *)
Definition clean_exponent (b : bytes) : bytes :=
  match rev b with
  | c :: z :: m :: e :: r =>
      if Ascii.eqb z "0" && Ascii.eqb m "-" && Ascii.eqb e "e"
      then rev (c :: m :: e :: r)
      else b
  | _ => b
  end.

(** [encoding/json]'s encoder for a [float64]. *)
Definition encodeFloat (f : float64) : result bytes :=
  match f with
  | NaN => Err (UnsupportedValueError "NaN")
  | Inf false => Err (UnsupportedValueError "+Inf")
  | Inf true => Err (UnsupportedValueError "-Inf")
  | Finite neg d dp =>
      match d with
      | [] => Ok (fmtF neg d dp)
      | _ =>
          if (dp <? -5) || (21 <? dp)
          then Ok (clean_exponent (fmtE neg d dp))
          else Ok (fmtF neg d dp)
      end
  end.

(* ===================================================================== *)
(** ** Span attributes *)
(* ===================================================================== *)

(** [attribute.Value]. *)
Inductive Value :=
| INVALID
| BOOL (b : bool)
| INT64 (i : Z)
| FLOAT64 (f : float64)
| STRING (s : string)
| BOOLSLICE (l : list bool)
| INT64SLICE (l : list Z)
| FLOAT64SLICE (l : list float64)
| STRINGSLICE (l : list string).

(** [attribute.KeyValue]. *)
Record KeyValue := { Key : string; KeyValue_Value : Value }.

(** [Value.Type().String()]. *)
Definition Type_String (v : Value) : string :=
  match v with
  | INVALID => "INVALID"
  | BOOL _ => "BOOL"
  | INT64 _ => "INT64"
  | FLOAT64 _ => "FLOAT64"
  | STRING _ => "STRING"
  | BOOLSLICE _ => "BOOLSLICE"
  | INT64SLICE _ => "INT64SLICE"
  | FLOAT64SLICE _ => "FLOAT64SLICE"
  | STRINGSLICE _ => "STRINGSLICE"
  end.

Definition number_of_float (f : float64) : result json :=
  rbind (encodeFloat f) (fun b => Ok (JNumber b)).

(** The encoding of [Value.AsInterface()]. *)
Definition encodeInterface (v : Value) : result json :=
  match v with
  | INVALID => Ok (JObject [])
  | BOOL b => Ok (JBool b)
  | INT64 i => Ok (JNumber (itoa i))
  | FLOAT64 f => number_of_float f
  | STRING s => Ok (JString s)
  | BOOLSLICE l => Ok (JArray (map JBool l))
  | INT64SLICE l => Ok (JArray (map (fun i => JNumber (itoa i)) l))
  | FLOAT64SLICE l => rbind (rmap number_of_float l) (fun js => Ok (JArray js))
  | STRINGSLICE l => Ok (JArray (map JString l))
  end.

(** [Value.MarshalJSON]: the struct with fields [Type] and [Value]. *)
Definition Value_MarshalJSON (v : Value) : result json :=
  rbind (encodeInterface v) (fun j =>
  Ok (JObject [("Type"%string, JString (Type_String v)); ("Value"%string, j)])).

(** A [KeyValue] is a plain struct; its [Value] is a [json.Marshaler],
    whose failure the encoder wraps. *)
Definition encodeKeyValue (kv : KeyValue) : result json :=
  match Value_MarshalJSON (KeyValue_Value kv) with
  | Ok j => Ok (JObject [("Key"%string, JString (Key kv)); ("Value"%string, j)])
  | Err e => Err (MarshalerError "attribute.Value" e "MarshalJSON")
  end.

(** [Time.MarshalJSON], as the encoder calls it. *)
Definition encodeTime (t : Time) : result json :=
  let b := appendFormatRFC3339 t in
  match strictRFC3339_error b with
  | Some msg =>
      Err (MarshalerError "time.Time"
             (ErrorString ("Time.MarshalJSON: " +:+ msg)) "MarshalJSON")
  | None => Ok (JString (string_of_list_ascii b))
  end.

(* ===================================================================== *)
(** ** Spans and the map that is serialised *)
(* ===================================================================== *)

(** The four readings of [sdktrace.ReadOnlySpan] that the exporter takes.
    [Attributes] is a Go slice: [None] is the nil slice. *)
Record ReadOnlySpan := {
  Name : string;
  StartTime : Time;
  EndTime : Time;
  Attributes : option (list KeyValue)
}.

(** The dynamic values [spanToMap] stores under [interface{}]. *)
Inductive any :=
| any_string (s : string)
| any_Time (t : Time)
| any_KeyValues (kvs : option (list KeyValue)).

Definition spanToMap (span : ReadOnlySpan) : gmap string any :=
  {[ "name"%string := any_string (Name span);
     "startTime"%string := any_Time (StartTime span);
     "endTime"%string := any_Time (EndTime span);
     "attributes"%string := any_KeyValues (Attributes span) ]}.

Definition encodeAny (v : any) : result json :=
  match v with
  | any_string s => Ok (JString s)
  | any_Time t => encodeTime t
  | any_KeyValues None => Ok JNull
  | any_KeyValues (Some kvs) =>
      rbind (rmap encodeKeyValue kvs) (fun js => Ok (JArray js))
  end.

Definition key_le (a b : string * any) : Prop := String.leb a.1 b.1.

#[local] Instance key_le_dec a b : Decision (key_le a b).
Proof. unfold key_le. apply _. Defined.

(** The map encoder: entries in the byte order of their keys, each value
    encoded in that order, the first failure ending the encoding. *)
Definition encodeMap (m : gmap string any) : result json :=
  rbind (rmap (fun kv => rbind (encodeAny kv.2) (fun j => Ok (kv.1, j)))
              (merge_sort key_le (map_to_list m)))
        (fun members => Ok (JObject members)).

(** [json.Marshal]: the compact text is never observed by the exporter,
    so the document is kept as a tree until it is indented. *)
Definition Marshal (m : gmap string any) : result json := encodeMap m.

(** [json.MarshalIndent(v, prefix, indent)]. *)
Definition MarshalIndent (v : gmap string any) (prefix indent : string)
  : bytes * option error :=
  match Marshal v with
  | Ok j => (indented (B prefix) (B indent) 0 j, None)
  | Err e => ([], Some e)
  end.

(* ===================================================================== *)
(** ** The process state: files, open files, tracer providers *)
(* ===================================================================== *)

(** An [os.File] object: the path it was opened on, the position of its
    descriptor and whether it has been closed. *)
Record File := { f_name : string; f_pos : nat; f_closed : bool }.

(** [*FileSpanExporter] points to a struct with one field, the [*os.File];
    [None] is a nil [*os.File].  The struct is never mutated, so a pointer
    to it is [option FileSpanExporter], [None] being the nil pointer. *)
Record FileSpanExporter := { file : option nat }.

(** The interface value [sdktrace.SpanExporter] holding a
    [*FileSpanExporter]; it is not the nil interface even when the pointer
    inside is nil. *)
Inductive SpanExporter := SpanExporter_of (p : option FileSpanExporter).

Inductive Sampler := AlwaysSample | NeverSample | ParentBased (root : Sampler).

Record Resource := { res_schemaURL : string; res_attributes : list KeyValue }.

(** [sdktrace.TracerProvider] with at most one batching span processor:
    the exporter the batcher was given, the spans it has queued, and the
    provider's shutdown flag. *)
Record TracerProvider := {
  tp_batcher : option SpanExporter;
  tp_sampler : Sampler;
  tp_resource : option Resource;
  tp_queue : list ReadOnlySpan;
  tp_isShutdown : bool
}.

Record World := {
  dirs : gset string;               (** the directories that exist *)
  readonly : gset string;           (** paths without write permission *)
  files : gmap string bytes;        (** regular files and their contents *)
  handles : gmap nat File;          (** every [os.File] created so far *)
  free : nat;                       (** bytes the device still accepts *)
  providers : gmap nat TracerProvider;
  globalTracerProvider : option nat;
  handled : list error              (** errors given to [otel.Handle] *)
}.

Definition set_files (v : gmap string bytes) (w : World) : World :=
  {| dirs := dirs w; readonly := readonly w; files := v; handles := handles w;
     free := free w; providers := providers w;
     globalTracerProvider := globalTracerProvider w; handled := handled w |}.

Definition set_handles (v : gmap nat File) (w : World) : World :=
  {| dirs := dirs w; readonly := readonly w; files := files w; handles := v;
     free := free w; providers := providers w;
     globalTracerProvider := globalTracerProvider w; handled := handled w |}.

Definition set_free (v : nat) (w : World) : World :=
  {| dirs := dirs w; readonly := readonly w; files := files w;
     handles := handles w; free := v; providers := providers w;
     globalTracerProvider := globalTracerProvider w; handled := handled w |}.

Definition set_providers (v : gmap nat TracerProvider) (w : World) : World :=
  {| dirs := dirs w; readonly := readonly w; files := files w;
     handles := handles w; free := free w; providers := v;
     globalTracerProvider := globalTracerProvider w; handled := handled w |}.

Definition set_global (v : option nat) (w : World) : World :=
  {| dirs := dirs w; readonly := readonly w; files := files w;
     handles := handles w; free := free w; providers := providers w;
     globalTracerProvider := v; handled := handled w |}.

Definition set_handled (v : list error) (w : World) : World :=
  {| dirs := dirs w; readonly := readonly w; files := files w;
     handles := handles w; free := free w; providers := providers w;
     globalTracerProvider := globalTracerProvider w; handled := v |}.

(** The content of the file at [path]; a path that names no file reads as
    empty. *)
Definition content (w : World) (path : string) : bytes :=
  default [] (files w !! path).

(* ===================================================================== *)
(** ** Go computations: state, and panics *)
(* ===================================================================== *)

Inductive outcome (A : Type) :=
| Ret (a : A)
| Panic (msg : string).

Arguments Ret {A} a.
Arguments Panic {A} msg.

Definition Go (A : Type) : Type := World -> outcome (A * World).

Definition ret {A} (a : A) : Go A := fun w => Ret (a, w).

Definition bind {A C} (m : Go A) (k : A -> Go C) : Go C :=
  fun w =>
    match m w with
    | Ret (a, w') => k a w'
    | Panic msg => Panic msg
    end.

Notation "x <- m ;; k" := (bind m (fun x => k))
  (at level 100, m at next level, right associativity).
Notation "m ;;; k" := (bind m (fun _ => k))
  (at level 100, right associativity).

Definition nil_dereference : string :=
  "runtime error: invalid memory address or nil pointer dereference".

(** Reading a field through a pointer. *)
Definition deref {A} (p : option A) : Go A :=
  fun w =>
    match p with
    | Some a => Ret (a, w)
    | None => Panic nil_dereference
    end.

(* ===================================================================== *)
(** ** package os: Create, Write, Close *)
(* ===================================================================== *)

(** The path up to its last slash, and what follows it.  Paths are
    compared as written: no cleaning, no symbolic links. *)
Fixpoint split_path (s : string) : option (string * string) :=
  match s with
  | EmptyString => None
  | String c s' =>
      match split_path s' with
      | Some (d, b) => Some (String c d, b)
      | None => if Ascii.eqb c "/" then Some (EmptyString, s') else None
      end
  end.

Definition dirname (s : string) : string :=
  match split_path s with
  | Some (EmptyString, _) => "/"
  | Some (d, _) => d
  | None => "."
  end.

Definition basename (s : string) : string :=
  match split_path s with
  | Some (_, b) => b
  | None => s
  end.

(** Why [open(name, O_RDWR|O_CREATE|O_TRUNC, 0666)] fails, if it does. *)
Definition create_errno (w : World) (name : string) : option error :=
  if bool_decide (name = EmptyString) then Some ENOENT
  else if bool_decide (dirname name ∉ dirs w) then Some ENOENT
  else if bool_decide (name ∈ dirs w) || bool_decide (basename name = EmptyString)
  then Some EISDIR
  else
    match files w !! name with
    | Some _ => if bool_decide (name ∈ readonly w) then Some EACCES else None
    | None => if bool_decide (dirname name ∈ readonly w) then Some EACCES else None
    end.

(** [os.Create]: on success the file exists and is empty, and a new
    [os.File] at position 0 is returned; descriptors already open on the
    path keep their positions. *)
Definition os_Create (name : string) : Go (option nat * option error) :=
  fun w =>
    match create_errno w name with
    | Some e => Ret ((None, Some (PathError "open" name e)), w)
    | None =>
        let id := fresh (dom (handles w)) in
        Ret ((Some id, None),
             set_handles (<[id := {| f_name := name; f_pos := 0; f_closed := false |}]> (handles w))
               (set_files (<[name := []]> (files w)) w))
    end.

(** The file after [data] is written at byte [pos] of [old]: writing
    nothing changes nothing, and a gap past the end of the file reads as
    zero bytes. *)
Definition write_at (pos : nat) (data old : bytes) : bytes :=
  match data with
  | [] => old
  | _ =>
      take pos old ++ replicate (pos - length old) zero ++ data
      ++ drop (pos + length data) old
  end.

(** [File.Write]: a nil or closed file takes nothing; otherwise as many
    bytes as the device accepts are written at the descriptor's position,
    which advances, and a short write is an error. *)
Definition File_Write (f : option nat) (b : bytes) : Go (nat * option error) :=
  fun w =>
    match f with
    | None => Ret ((0%nat, Some ErrInvalid), w)
    | Some id =>
        match handles w !! id with
        | None => Ret ((0%nat, Some ErrInvalid), w)
        | Some h =>
            if f_closed h
            then Ret ((0%nat, Some (PathError "write" (f_name h) ErrClosed)), w)
            else
              let n := min (length b) (free w) in
              let w' :=
                set_free (free w - n)
                  (set_handles
                     (<[id := {| f_name := f_name h; f_pos := f_pos h + n;
                                 f_closed := false |}]> (handles w))
                     (set_files
                        (<[f_name h := write_at (f_pos h) (take n b)
                                         (content w (f_name h))]> (files w))
                        w)) in
              Ret ((n, if (n <? length b)%nat
                       then Some (PathError "write" (f_name h) ENOSPC)
                       else None), w')
        end
    end.

(** [File.Close]: closing twice is an error. *)
Definition File_Close (f : option nat) : Go (option error) :=
  fun w =>
    match f with
    | None => Ret (Some ErrInvalid, w)
    | Some id =>
        match handles w !! id with
        | None => Ret (Some ErrInvalid, w)
        | Some h =>
            if f_closed h
            then Ret (Some (PathError "close" (f_name h) ErrClosed), w)
            else
              Ret (None,
                   set_handles
                     (<[id := {| f_name := f_name h; f_pos := f_pos h;
                                 f_closed := true |}]> (handles w)) w)
        end
    end.

(* ===================================================================== *)
(** ** isuexporter.go: the exporter *)
(* ===================================================================== *)

Record Context := { ctx_cancelable : bool; ctx_err : option error }.

Definition Background : Context :=
  {| ctx_cancelable := false; ctx_err := None |}.

(** [context.WithCancel]: the child context and its cancel function. *)
Definition WithCancel (parent : Context) : Context * Go unit :=
  ({| ctx_cancelable := true; ctx_err := ctx_err parent |}, ret tt).

Definition NewFileSpanExporter (filename : string)
  : Go (option FileSpanExporter * option error) :=
  r <- os_Create filename ;;
  let '(file, err) := r in
  match err with
  | Some e => ret (None, Some e)
  | None => ret (Some {| file := file |}, None)
  end.

Definition Shutdown (f : option FileSpanExporter) (ctx : Context)
  : Go (option error) :=
  f' <- deref f ;;
  File_Close (file f').

Definition newline : ascii := "010"%char.

Fixpoint ExportSpans (f : option FileSpanExporter) (ctx : Context)
    (spans : list ReadOnlySpan) : Go (option error) :=
  match spans with
  | [] => ret None
  | span :: spans' =>
      let '(data, err) := MarshalIndent (spanToMap span) "" "  " in
      match err with
      | Some e => ret (Some e)
      | None =>
          f' <- deref f ;;
          r <- File_Write (file f') (data ++ [newline]) ;;
          match r.2 with
          | Some e => ret (Some e)
          | None => ExportSpans f ctx spans'
          end
      end
  end.

(* ===================================================================== *)
(** ** The tracing SDK: provider and batching span processor *)
(* ===================================================================== *)

(** The SDK runs the batcher on its own goroutine; here its work is done
    in the call that triggers it.  A panic on that goroutine ends the
    process, which is what [Panic] stands for. *)

Definition MaxExportBatchSize : nat := 512.

Inductive TracerProviderOption :=
| WithBatcher (e : SpanExporter)
| WithSampler (s : Sampler)
| WithResource (r : Resource).

Definition default_provider : TracerProvider :=
  {| tp_batcher := None; tp_sampler := ParentBased AlwaysSample;
     tp_resource := None; tp_queue := []; tp_isShutdown := false |}.

Definition apply_option (tp : TracerProvider) (o : TracerProviderOption)
  : TracerProvider :=
  match o with
  | WithBatcher e =>
      {| tp_batcher := Some e; tp_sampler := tp_sampler tp;
         tp_resource := tp_resource tp; tp_queue := tp_queue tp;
         tp_isShutdown := tp_isShutdown tp |}
  | WithSampler s =>
      {| tp_batcher := tp_batcher tp; tp_sampler := s;
         tp_resource := tp_resource tp; tp_queue := tp_queue tp;
         tp_isShutdown := tp_isShutdown tp |}
  | WithResource r =>
      {| tp_batcher := tp_batcher tp; tp_sampler := tp_sampler tp;
         tp_resource := Some r; tp_queue := tp_queue tp;
         tp_isShutdown := tp_isShutdown tp |}
  end.

Definition NewTracerProvider (opts : list TracerProviderOption) : Go nat :=
  fun w =>
    let p := fresh (dom (providers w)) in
    Ret (p, set_providers
              (<[p := foldl apply_option default_provider opts]> (providers w)) w).

(** [otel.SetTracerProvider]: the process-wide slot. *)
Definition SetTracerProvider (p : nat) : Go unit :=
  fun w => Ret (tt, set_global (Some p) w).

(** [otel.Handle]: the error goes to the global error handler and nowhere
    else. *)
Definition Handle (err : error) : Go unit :=
  fun w => Ret (tt, set_handled (handled w ++ [err]) w).

Definition set_queue (q : list ReadOnlySpan) (tp : TracerProvider)
  : TracerProvider :=
  {| tp_batcher := tp_batcher tp; tp_sampler := tp_sampler tp;
     tp_resource := tp_resource tp; tp_queue := q;
     tp_isShutdown := tp_isShutdown tp |}.

Definition set_isShutdown (b : bool) (tp : TracerProvider) : TracerProvider :=
  {| tp_batcher := tp_batcher tp; tp_sampler := tp_sampler tp;
     tp_resource := tp_resource tp; tp_queue := tp_queue tp;
     tp_isShutdown := b |}.


(** The batches [drainQueue] hands to the exporter: the queue is read
    span by span into the current batch, which is exported when it reaches
    [size]; what is left at the end is the final export. *)
Fixpoint batches {A} (size : nat) (cur q : list A) : list (list A) :=
  match q with
  | [] => match cur with [] => [] | _ => [cur] end
  | x :: q' =>
      if (length (cur ++ [x]) =? size)%nat
      then (cur ++ [x]) :: batches size [] q'
      else batches size (cur ++ [x]) q'
  end.

Definition exporter_ExportSpans (e : SpanExporter) (ctx : Context)
    (spans : list ReadOnlySpan) : Go (option error) :=
  match e with SpanExporter_of p => ExportSpans p ctx spans end.

Definition exporter_Shutdown (e : SpanExporter) (ctx : Context)
  : Go (option error) :=
  match e with SpanExporter_of p => Shutdown p ctx end.

Definition handle_if_error (err : option error) : Go unit :=
  match err with
  | Some e => Handle e
  | None => ret tt
  end.

Fixpoint export_batches (e : SpanExporter) (ctx : Context)
    (bs : list (list ReadOnlySpan)) : Go unit :=
  match bs with
  | [] => ret tt
  | b :: bs' =>
      err <- exporter_ExportSpans e ctx b ;;
      handle_if_error err ;;;
      export_batches e ctx bs'
  end.

(** [TracerProvider.Shutdown]: a provider already shut down does nothing;
    otherwise the flag is set and, unless the context is already done, the
    batcher drains its queue through the exporter and shuts the exporter
    down.  Export and shutdown errors of the exporter go to [otel.Handle];
    only the context's error is returned. *)
Definition TracerProvider_Shutdown (p : nat) (ctx : Context)
  : Go (option error) :=
  fun w =>
    match providers w !! p with
    | None => Panic nil_dereference
    | Some tp =>
        if tp_isShutdown tp then Ret (None, w)
        else
          let w1 :=
            set_providers (<[p := set_isShutdown true tp]> (providers w)) w in
          match tp_batcher tp, ctx_err ctx with
          | None, _ => Ret (None, w1)
          | Some _, Some err => Ret (Some err, w1)
          | Some e, None =>
              (export_batches e (WithCancel Background).1
                 (batches MaxExportBatchSize [] (tp_queue tp)) ;;;
               err <- exporter_Shutdown e ctx ;;
               handle_if_error err ;;;
               ret None)
                (set_providers
                   (<[p := set_queue [] (set_isShutdown true tp)]> (providers w))
                   w)
          end
    end.

(* ===================================================================== *)
(** ** isuexporter.go: the setup routine *)
(* ===================================================================== *)

Definition semconv_SchemaURL : string := "https://opentelemetry.io/schemas/1.7.0".
Definition semconv_ServiceNameKey : string := "service.name".
Definition semconv_ServiceVersionKey : string := "service.version".

Definition resource_NewWithAttributes (schemaURL : string)
    (attrs : list KeyValue) : Resource :=
  {| res_schemaURL := schemaURL; res_attributes := attrs |}.

(** The closure [cleanup] of [TraceFileProvider], for the provider it
    captured.  The deferred [cancel] runs on both ways out. *)
Definition cleanup (tracerProvider : nat) : Go unit :=
  let '(ctx, cancel) := WithCancel Background in
  err <- TracerProvider_Shutdown tracerProvider ctx ;;
  match err with
  | Some _ => cancel
  | None => cancel
  end.

Definition TraceFileProvider (filePath serviceName serviceVersion : string)
  : Go (Go unit * option error) :=
  r <- NewFileSpanExporter filePath ;;
  let '(exporter, err) := r in
  match err with
  | Some _ => ret tt
  | None => ret tt
  end ;;;
  let otelResource :=
    resource_NewWithAttributes semconv_SchemaURL
      [ {| Key := semconv_ServiceNameKey; KeyValue_Value := STRING serviceName |};
        {| Key := semconv_ServiceVersionKey; KeyValue_Value := STRING serviceVersion |} ] in
  tracerProvider <-
    NewTracerProvider
      [ WithBatcher (SpanExporter_of exporter);
        WithSampler AlwaysSample;
        WithResource otelResource ] ;;
  SetTracerProvider tracerProvider ;;;
  ret (cleanup tracerProvider, None).

(* ===================================================================== *)
(** ** The vocabulary of the properties *)
(* ===================================================================== *)

(** The document the exporter is meant to emit for a span: the object
    with the members [attributes], [endTime], [name] and [startTime], in
    this order, indented by two spaces. *)
Definition span_object (span : ReadOnlySpan) : result json :=
  rbind (encodeAny (any_KeyValues (Attributes span))) (fun a =>
  rbind (encodeTime (EndTime span)) (fun e =>
  rbind (encodeTime (StartTime span)) (fun s =>
  Ok (JObject [("attributes"%string, a); ("endTime"%string, e);
               ("name"%string, JString (Name span));
               ("startTime"%string, s)])))).

Definition span_document (span : ReadOnlySpan) : result bytes :=
  rbind (span_object span) (fun j => Ok (indented [] (B "  ") 0 j)).

(** The descriptor of [h] after [n] more bytes. *)
Definition advance (n : nat) (h : File) : File :=
  {| f_name := f_name h; f_pos := f_pos h + n; f_closed := f_closed h |}.

Definition close_file (h : File) : File :=
  {| f_name := f_name h; f_pos := f_pos h; f_closed := true |}.

(** Two states that differ at most in the content of [path], the
    descriptor [id] and the free space. *)
Definition same_but (path : string) (id : nat) (w w' : World) : Prop :=
  dirs w' = dirs w /\ readonly w' = readonly w /\
  providers w' = providers w /\
  globalTracerProvider w' = globalTracerProvider w /\
  handled w' = handled w /\
  (forall q, q <> path -> files w' !! q = files w !! q) /\
  (forall j, j <> id -> handles w' !! j = handles w !! j).

(** What it is for [d] to be the document of [span]: the two-space
    indented text of the object whose members [attributes], [endTime],
    [name] and [startTime] are the encodings of the span's attributes, end
    time, name and start time. *)
Definition is_document_of (span : ReadOnlySpan) (d : bytes) : Prop :=
  exists a e s,
    encodeAny (any_KeyValues (Attributes span)) = Ok a /\
    encodeTime (EndTime span) = Ok e /\
    encodeTime (StartTime span) = Ok s /\
    d = indented [] (B "  ") 0
          (JObject [("attributes"%string, a); ("endTime"%string, e);
                    ("name"%string, JString (Name span));
                    ("startTime"%string, s)]).

(** The bytes of a sequence of documents in the file: each is followed by
    one newline. *)
Definition lines (docs : list bytes) : bytes :=
  concat (map (fun d => d ++ [newline]) docs).

(** ** A scenario to run the definitions on *)

Definition initial_world : World :=
  {| dirs := {[ "/"%string; "/tmp"%string; "."%string ]};
     readonly := ∅; files := ∅; handles := ∅; free := 4096;
     providers := ∅; globalTracerProvider := None; handled := [] |}.

Definition noon : Time :=
  {| t_year := 2024; t_month := 5; t_day := 17; t_hour := 12; t_minute := 0;
     t_second := 0; t_nanosecond := 0; t_offset := 0 |}.

Definition a_bit_later : Time :=
  {| t_year := 2024; t_month := 5; t_day := 17; t_hour := 12; t_minute := 0;
     t_second := 0; t_nanosecond := 250000000; t_offset := 0 |}.

Definition request_span : ReadOnlySpan :=
  {| Name := "request"; StartTime := noon; EndTime := a_bit_later;
     Attributes :=
       Some [ {| Key := "http.method"; KeyValue_Value := STRING "GET" |} ] |}.

Definition query_span : ReadOnlySpan :=
  {| Name := "query"; StartTime := noon; EndTime := a_bit_later;
     Attributes := None |}.

(** A span whose end time cannot be written as RFC 3339. *)
Definition far_future_span : ReadOnlySpan :=
  {| Name := "late"; StartTime := noon;
     EndTime :=
       {| t_year := 10000; t_month := 1; t_day := 1; t_hour := 0;
          t_minute := 0; t_second := 0; t_nanosecond := 0; t_offset := 0 |};
     Attributes := None |}.

Definition world_of {A} (o : outcome (A * World)) : World :=
  match o with
  | Ret (_, w) => w
  | Panic _ => initial_world
  end.

Definition out_json : string := "/tmp/out.json".

(** The state after [NewFileSpanExporter "/tmp/out.json"], and the
    exporter it returns. *)
Definition opened_world : World :=
  world_of (NewFileSpanExporter out_json initial_world).

Definition the_exporter : FileSpanExporter := {| file := Some 0%nat |}.

Definition the_file : File :=
  {| f_name := out_json; f_pos := 0; f_closed := false |}.

(** The descriptor [id] stands at the end of its file. *)
Definition at_end (w : World) (id : nat) : Prop :=
  exists h, handles w !! id = Some h
            /\ f_pos h = length (content w (f_name h)).

(** The context the teardown closure creates. *)
Definition teardown_context : Context := (WithCancel Background).1.

(** The state in which the batcher drains: the provider is marked as shut
    down and its queue has been taken. *)
Definition draining (p : nat) (tp : TracerProvider) (w : World) : World :=
  set_providers (<[p := set_queue [] (set_isShutdown true tp)]> (providers w)) w.

(** The pipeline [TraceFileProvider] builds around an exporter pointer. *)
Definition pipeline_of (exporter : option FileSpanExporter)
    (serviceName serviceVersion : string) : TracerProvider :=
  {| tp_batcher := Some (SpanExporter_of exporter);
     tp_sampler := AlwaysSample;
     tp_resource :=
       Some {| res_schemaURL := semconv_SchemaURL;
               res_attributes :=
                 [ {| Key := semconv_ServiceNameKey;
                      KeyValue_Value := STRING serviceName |};
                   {| Key := semconv_ServiceVersionKey;
                      KeyValue_Value := STRING serviceVersion |} ] |};
     tp_queue := [];
     tp_isShutdown := false |}.

(** The state once provider [tp] has been allocated at [p] and put in the
    global slot. *)
Definition installed (p : nat) (tp : TracerProvider) (w : World) : World :=
  set_global (Some p) (set_providers (<[p := tp]> (providers w)) w).



(** The state after the exporter on [/tmp/out.json] has been closed. *)
Definition closed_world : World :=
  world_of (Shutdown (Some the_exporter) Background opened_world).

(* ===================================================================== *)
(** ** Reading a document back *)
(* ===================================================================== *)

(** A reader for JSON texts (RFC 8259) and one for RFC 3339 timestamps:
    what a consumer of the output file does with a document.  Numbers are
    kept as their literal text. *)

Definition is_ws (c : ascii) : bool :=
  let b := byte_val c in (b =? 32) || (b =? 9) || (b =? 10) || (b =? 13).

Fixpoint skip_ws (s : bytes) : bytes :=
  match s with
  | c :: r => if is_ws c then skip_ws r else s
  | [] => []
  end.

Definition is_digit (c : ascii) : bool := in_range 48 (byte_val c) 57.

Definition hexval (c : ascii) : option Z :=
  let b := byte_val c in
  if in_range 48 b 57 then Some (b - 48)
  else if in_range 97 b 102 then Some (b - 87)
  else if in_range 65 b 70 then Some (b - 55)
  else None.

Definition hex4 (a b c d : ascii) : option Z :=
  match hexval a, hexval b, hexval c, hexval d with
  | Some x3, Some x2, Some x1, Some x0 =>
      Some (x3 * 4096 + x2 * 256 + x1 * 16 + x0)
  | _, _, _, _ => None
  end.

(** [utf8.AppendRune]. *)
Definition encodeRune (r : Z) : bytes :=
  if r <? 0x80 then [byte_of r]
  else if r <? 0x800 then [byte_of (0xC0 + r / 64); byte_of (0x80 + r mod 64)]
  else if r <? 0x10000 then
    [byte_of (0xE0 + r / 4096); byte_of (0x80 + (r / 64) mod 64);
     byte_of (0x80 + r mod 64)]
  else
    [byte_of (0xF0 + r / 262144); byte_of (0x80 + (r / 4096) mod 64);
     byte_of (0x80 + (r / 64) mod 64); byte_of (0x80 + r mod 64)].

(** The byte a two-character escape stands for. *)
Definition unescape (e : ascii) : option ascii :=
  let b := byte_val e in
  if (b =? 34) || (b =? 92) || (b =? 47) then Some e
  else if b =? 98 then Some (byte_of 8)
  else if b =? 102 then Some (byte_of 12)
  else if b =? 110 then Some (byte_of 10)
  else if b =? 114 then Some (byte_of 13)
  else if b =? 116 then Some (byte_of 9)
  else None.

Definition prepend (p : bytes) (o : option (bytes * bytes))
  : option (bytes * bytes) :=
  match o with
  | Some (b, rest) => Some (p ++ b, rest)
  | None => None
  end.

Definition backslash : ascii := "\"%char.

(** A string literal after its opening quote: the bytes it denotes and
    what follows its closing quote.  An escaped surrogate pair is one
    rune; a lone surrogate is U+FFFD. *)
Fixpoint read_string (s : bytes) : option (bytes * bytes) :=
  match s with
  | [] => None
  | c :: r =>
      if Ascii.eqb c quote then Some ([], r)
      else if Ascii.eqb c backslash then
        match r with
        | [] => None
        | e :: r1 =>
            if Ascii.eqb e "u" then
              match r1 with
              | h1 :: h2 :: h3 :: h4 :: r2 =>
                  match hex4 h1 h2 h3 h4 with
                  | None => None
                  | Some u =>
                      if in_range 0xD800 u 0xDBFF then
                        match r2 with
                        | b1 :: u1 :: l1 :: l2 :: l3 :: l4 :: r3 =>
                            match hex4 l1 l2 l3 l4 with
                            | Some lo =>
                                if Ascii.eqb b1 backslash && Ascii.eqb u1 "u"
                                   && in_range 0xDC00 lo 0xDFFF
                                then prepend
                                       (encodeRune (0x10000 + (u - 0xD800) * 1024
                                                    + (lo - 0xDC00)))
                                       (read_string r3)
                                else prepend (encodeRune RuneError) (read_string r2)
                            | None => prepend (encodeRune RuneError) (read_string r2)
                            end
                        | _ => prepend (encodeRune RuneError) (read_string r2)
                        end
                      else if in_range 0xDC00 u 0xDFFF
                      then prepend (encodeRune RuneError) (read_string r2)
                      else prepend (encodeRune u) (read_string r2)
                  end
              | _ => None
              end
            else
              match unescape e with
              | Some b => prepend [b] (read_string r1)
              | None => None
              end
        end
      else if byte_val c <? 32 then None
      else prepend [c] (read_string r)
  end.

Definition is_numchar (c : ascii) : bool :=
  let b := byte_val c in
  is_digit c || (b =? 45) || (b =? 43) || (b =? 46) || (b =? 101) || (b =? 69).

Fixpoint read_number (s : bytes) : bytes * bytes :=
  match s with
  | c :: r =>
      if is_numchar c then let '(lit, rest) := read_number r in (c :: lit, rest)
      else ([], s)
  | [] => ([], [])
  end.

Definition literal (word : string) (v : json) (s : bytes)
  : option (json * bytes) :=
  if bool_decide (take (length (B word)) s = B word)
  then Some (v, drop (length (B word)) s)
  else None.

(** A value, the elements of an array after its opening bracket, and the
    members of an object after its opening brace. *)
Fixpoint read_value (fuel : nat) (s : bytes) : option (json * bytes) :=
  match fuel with
  | O => None
  | S fuel' =>
      match skip_ws s with
      | [] => None
      | c :: r =>
          if Ascii.eqb c quote then
            match read_string r with
            | Some (b, rest) => Some (JString (string_of_list_ascii b), rest)
            | None => None
            end
          else if Ascii.eqb c "[" then
            match skip_ws r with
            | c' :: r' =>
                if Ascii.eqb c' "]" then Some (JArray [], r')
                else
                  match read_elements fuel' r with
                  | Some (xs, rest) => Some (JArray xs, rest)
                  | None => None
                  end
            | [] => None
            end
          else if Ascii.eqb c "{" then
            match skip_ws r with
            | c' :: r' =>
                if Ascii.eqb c' "}" then Some (JObject [], r')
                else
                  match read_members fuel' r with
                  | Some (ms, rest) => Some (JObject ms, rest)
                  | None => None
                  end
            | [] => None
            end
          else if Ascii.eqb c "n" then literal "null" JNull (c :: r)
          else if Ascii.eqb c "t" then literal "true" (JBool true) (c :: r)
          else if Ascii.eqb c "f" then literal "false" (JBool false) (c :: r)
          else if is_numchar c then
            let '(lit, rest) := read_number (c :: r) in Some (JNumber lit, rest)
          else None
      end
  end
with read_elements (fuel : nat) (s : bytes) : option (list json * bytes) :=
  match fuel with
  | O => None
  | S fuel' =>
      match read_value fuel' s with
      | None => None
      | Some (x, rest) =>
          match skip_ws rest with
          | c :: r =>
              if Ascii.eqb c "," then
                match read_elements fuel' r with
                | Some (xs, rest') => Some (x :: xs, rest')
                | None => None
                end
              else if Ascii.eqb c "]" then Some ([x], r)
              else None
          | [] => None
          end
      end
  end
with read_members (fuel : nat) (s : bytes)
  : option (list (string * json) * bytes) :=
  match fuel with
  | O => None
  | S fuel' =>
      match skip_ws s with
      | q :: r0 =>
          if Ascii.eqb q quote then
            match read_string r0 with
            | None => None
            | Some (k, r1) =>
                match skip_ws r1 with
                | colon :: r2 =>
                    if Ascii.eqb colon ":" then
                      match read_value fuel' r2 with
                      | None => None
                      | Some (x, rest) =>
                          match skip_ws rest with
                          | c :: r =>
                              if Ascii.eqb c "," then
                                match read_members fuel' r with
                                | Some (ms, rest') =>
                                    Some ((string_of_list_ascii k, x) :: ms, rest')
                                | None => None
                                end
                              else if Ascii.eqb c "}"
                              then Some ([(string_of_list_ascii k, x)], r)
                              else None
                          | [] => None
                          end
                      end
                    else None
                | [] => None
                end
            end
          else None
      | [] => None
      end
  end.

(** A whole text is one value and then white space only. *)
Definition read_json (s : bytes) : option json :=
  match read_value (length s) s with
  | Some (j, rest) =>
      match skip_ws rest with
      | [] => Some j
      | _ => None
      end
  | None => None
  end.

Fixpoint assoc (key : string) (ms : list (string * json)) : option json :=
  match ms with
  | [] => None
  | (k, v) :: ms' => if String.eqb k key then Some v else assoc key ms'
  end.

(** The member of an object under a key. *)
Definition member (key : string) (j : json) : option json :=
  match j with
  | JObject ms => assoc key ms
  | _ => None
  end.

Definition digitval (c : ascii) : option Z :=
  if is_digit c then Some (byte_val c - 48) else None.

(** The number a run of digits denotes, after the digits [acc]. *)
Fixpoint read_dec (s : bytes) (acc : Z) : option Z :=
  match s with
  | [] => Some acc
  | c :: r =>
      match digitval c with
      | Some d => read_dec r (10 * acc + d)
      | None => None
      end
  end.

Fixpoint read_digits (s : bytes) : bytes * bytes :=
  match s with
  | c :: r =>
      if is_digit c then let '(ds, rest) := read_digits r in (c :: ds, rest)
      else ([], s)
  | [] => ([], [])
  end.

(** [Z] or a signed [hh:mm], in seconds east of UTC. *)
Definition read_zone (s : bytes) : option Z :=
  match s with
  | [z] => if Ascii.eqb z "Z" then Some 0 else None
  | [sg; h1; h0; c; m1; m0] =>
      match read_dec [h1; h0] 0, read_dec [m1; m0] 0 with
      | Some h, Some m =>
          if Ascii.eqb c ":" && (h <=? 23) && (m <=? 59)
          then if Ascii.eqb sg "+" then Some (h * 3600 + m * 60)
               else if Ascii.eqb sg "-" then Some (- (h * 3600 + m * 60))
               else None
          else None
      | _, _ => None
      end
  | _ => None
  end.

(** The fraction of a second, in nanoseconds, and what follows it. *)
Definition read_fraction (s : bytes) : option (Z * bytes) :=
  match s with
  | c :: r =>
      if Ascii.eqb c "." then
        let '(ds, rest) := read_digits r in
        if (1 <=? length ds)%nat && (length ds <=? 9)%nat then
          match read_dec ds 0 with
          | Some n => Some (n * 10 ^ Z.of_nat (9 - length ds), rest)
          | None => None
          end
        else None
      else Some (0, s)
  | [] => Some (0, [])
  end.

(** An RFC 3339 timestamp: [yyyy-mm-ddThh:mm:ss], an optional fraction,
    and the zone. *)
Definition read_time (s : bytes) : option Time :=
  match s with
  | y3 :: y2 :: y1 :: y0 :: a :: mo1 :: mo0 :: b :: d1 :: d0 :: t ::
    h1 :: h0 :: c :: mi1 :: mi0 :: d :: s1 :: s0 :: rest =>
      if Ascii.eqb a "-" && Ascii.eqb b "-" && Ascii.eqb t "T"
         && Ascii.eqb c ":" && Ascii.eqb d ":" then
        match read_dec [y3; y2; y1; y0] 0, read_dec [mo1; mo0] 0,
              read_dec [d1; d0] 0, read_dec [h1; h0] 0,
              read_dec [mi1; mi0] 0, read_dec [s1; s0] 0,
              read_fraction rest with
        | Some year, Some month, Some day, Some hour, Some minute,
          Some second, Some (nsec, zone) =>
            match read_zone zone with
            | Some offset =>
                let r :=
                  {| t_year := year; t_month := month; t_day := day;
                     t_hour := hour; t_minute := minute; t_second := second;
                     t_nanosecond := nsec; t_offset := offset |} in
                if valid_time r then Some r else None
            | None => None
            end
        | _, _, _, _, _, _, _ => None
        end
      else None
  | _ => None
  end.

(** The time a JSON string holds. *)
Definition time_of (j : json) : option Time :=
  match j with
  | JString s => read_time (B s)
  | _ => None
  end.

(** A string as [encoding/json] writes it: every byte that starts no
    well-formed UTF-8 sequence has become U+FFFD. *)
Fixpoint coerce_loop (fuel : nat) (src : bytes) : bytes :=
  match fuel, src with
  | _, [] => []
  | O, _ => []
  | S fuel', c :: rest =>
      let d := DecodeRune src in
      if invalid_rune d then encodeRune RuneError ++ coerce_loop fuel' rest
      else take (snd d) src ++ coerce_loop fuel' (drop (snd d) src)
  end.

Definition coerced (s : string) : string :=
  string_of_list_ascii (coerce_loop (length (B s)) (B s)).

Fixpoint coerced_json (j : json) : json :=
  match j with
  | JString s => JString (coerced s)
  | JArray xs => JArray (map coerced_json xs)
  | JObject ms =>
      JObject ((fix go (l : list (string * json)) : list (string * json) :=
                  match l with
                  | [] => []
                  | (k, x) :: l' => (coerced k, coerced_json x) :: go l'
                  end) ms)
  | _ => j
  end.

(** The rounds [read_value] needs for the text of a document. *)
Fixpoint need (j : json) : nat :=
  match j with
  | JArray xs =>
      S ((fix go (l : list json) : nat :=
            match l with
            | [] => 0%nat
            | x :: l' => S (Nat.max (need x) (go l'))
            end) xs)
  | JObject ms =>
      S ((fix go (l : list (string * json)) : nat :=
            match l with
            | [] => 0%nat
            | (_, x) :: l' => S (Nat.max (need x) (go l'))
            end) ms)
  | _ => 1%nat
  end.

(** Every number in the document is a non-empty run of the characters of
    a JSON number. *)
Fixpoint numbers_ok (j : json) : bool :=
  match j with
  | JNumber lit => negb (bool_decide (lit = [])) && forallb is_numchar lit
  | JArray xs => forallb numbers_ok xs
  | JObject ms =>
      (fix go (l : list (string * json)) : bool :=
         match l with
         | [] => true
         | (_, x) :: l' => numbers_ok x && go l'
         end) ms
  | _ => true
  end.

(** The items of an array after the first, and the members of an object
    after the first, as [indented] writes them. *)
Fixpoint more_items (prefix indent : bytes) (depth : nat) (l : list json)
  : bytes :=
  match l with
  | [] => []
  | y :: l' =>
      B "," ++ appendNewline prefix indent depth
      ++ indented prefix indent depth y ++ more_items prefix indent depth l'
  end.

Fixpoint more_members (prefix indent : bytes) (depth : nat)
    (l : list (string * json)) : bytes :=
  match l with
  | [] => []
  | (k, y) :: l' =>
      B "," ++ appendNewline prefix indent depth
      ++ appendString k ++ B ": " ++ indented prefix indent depth y
      ++ more_members prefix indent depth l'
  end.

Fixpoint need_items (l : list json) : nat :=
  match l with
  | [] => 0%nat
  | x :: l' => S (Nat.max (need x) (need_items l'))
  end.

Fixpoint need_members (l : list (string * json)) : nat :=
  match l with
  | [] => 0%nat
  | (_, x) :: l' => S (Nat.max (need x) (need_members l'))
  end.

Definition coerced_member (kv : string * json) : string * json :=
  (coerced kv.1, coerced_json kv.2).

(** What may follow a value in a text: not a character of a number. *)
Definition head_ok (rest : bytes) : bool :=
  match rest with
  | [] => true
  | c :: _ => negb (is_numchar c)
  end.

(** Reading the indented text of [j] gives [j] back, up to the coercion
    of its strings. *)
Definition reads_back (prefix indent : bytes) (j : json) : Prop :=
  numbers_ok j = true ->
  forall fuel depth rest,
    (need j <= fuel)%nat -> head_ok rest = true ->
    read_value fuel (indented prefix indent depth j ++ rest)
    = Some (coerced_json j, rest).

(** A list of bytes that can stand as a JSON number. *)
Definition numeral (l : bytes) : Prop := l <> [] /\ forallb is_numchar l = true.

(** The hours and minutes of a zone offset. *)
Definition zone_hours (offset : Z) : Z := Z.abs (Z.quot offset 60) / 60.
Definition zone_minutes (offset : Z) : Z := Z.abs (Z.quot offset 60) mod 60.

Definition is_ascii (c : ascii) : bool := byte_val c <? 128.

(** A span whose name is the single byte [0xFF], which is not UTF-8. *)
Definition binary_name_span : ReadOnlySpan :=
  {| Name := String "255" EmptyString; StartTime := noon;
     EndTime := a_bit_later; Attributes := None |}.

(** ** Further vocabulary: a full device, streams of documents, and the
    spans that can be serialised *)

(** The device of [opened_world] with room for ten more bytes. *)
Definition nearly_full_world : World := set_free 10 opened_world.

(** The document of [request_span]. *)
Definition request_document : bytes :=
  (MarshalIndent (spanToMap request_span) "" "  ").1.

(** A file of documents: values one after the other, separated by white
    space, until only white space is left. *)
Fixpoint read_stream (fuel : nat) (s : bytes) : option (list json) :=
  match fuel with
  | O => None
  | S fuel' =>
      match skip_ws s with
      | [] => Some []
      | _ :: _ =>
          match read_value (length s) s with
          | Some (j, rest) =>
              match read_stream fuel' rest with
              | Some js => Some (j :: js)
              | None => None
              end
          | None => None
          end
      end
  end.

Definition read_documents (s : bytes) : option (list json) :=
  read_stream (S (length s)) s.

(** The text [MarshalIndent] gives a document with no prefix and an
    indent of two spaces. *)
Definition document_text (j : json) : bytes := indented [] (B "  ") 0 j.

Definition finite (f : float64) : bool :=
  match f with
  | Finite _ _ _ => true
  | _ => false
  end.

(** An attribute value without a NaN or an infinity. *)
Definition finite_value (v : Value) : bool :=
  match v with
  | FLOAT64 f => finite f
  | FLOAT64SLICE l => forallb finite l
  | _ => true
  end.

(** A time with a year of four digits and a zone below 24 hours. *)
Definition time_in_rfc3339 (t : Time) : bool :=
  in_range 0 (t_year t) 9999
  && ((t_offset t =? 0) || (zone_hours (t_offset t) <=? 23)).

(** The spans that can be serialised. *)
Definition serialisable (span : ReadOnlySpan) : bool :=
  forallb (fun kv => finite_value (KeyValue_Value kv))
          (default [] (Attributes span))
  && time_in_rfc3339 (EndTime span)
  && time_in_rfc3339 (StartTime span).

(** ** What a reader finds in a document *)

(** A key as a document spells it: between two quotation marks. *)
Definition quoted (s : string) : bytes := ["034"%char] ++ B s ++ ["034"%char].

(** The RFC 3339 text of a time, with nanoseconds. *)
Definition rfc3339 (t : Time) : string :=
  string_of_list_ascii (appendFormatRFC3339 t).

(** What a reader finds for an attribute value: booleans and integers as
    they are, a float as the numeral the encoder writes for it, a string
    coerced to UTF-8, a slice as the array of its elements, and the empty
    object for the invalid value. *)
Definition value_read (v : Value) (j : json) : Prop :=
  match v with
  | INVALID => j = JObject []
  | BOOL b => j = JBool b
  | INT64 i => j = JNumber (itoa i)
  | FLOAT64 f => exists lit, encodeFloat f = Ok lit /\ j = JNumber lit
  | STRING s => j = JString (coerced s)
  | BOOLSLICE l => j = JArray (map JBool l)
  | INT64SLICE l => j = JArray (map (fun i => JNumber (itoa i)) l)
  | FLOAT64SLICE l =>
      exists lits,
        Forall2 (fun f lit => encodeFloat f = Ok lit) l lits
        /\ j = JArray (map JNumber lits)
  | STRINGSLICE l => j = JArray (map (fun s => JString (coerced s)) l)
  end.

(** What a reader finds for one attribute: its key coerced to UTF-8, and
    its value under the name of its type. *)
Definition attribute_read (kv : KeyValue) (j : json) : Prop :=
  exists v,
    value_read (KeyValue_Value kv) v
    /\ j = JObject
             [("Key"%string, JString (coerced (Key kv)));
              ("Value"%string,
               JObject [("Type"%string,
                         JString (Type_String (KeyValue_Value kv)));
                        ("Value"%string, v)])].

(** What a reader finds for the attributes of a span: [null] for the nil
    slice, else one object per attribute, in order. *)
Definition attributes_read (attrs : option (list KeyValue)) (j : json) : Prop :=
  match attrs with
  | None => j = JNull
  | Some kvs => exists js, Forall2 attribute_read kvs js /\ j = JArray js
  end.

(** The document [d] as far as it reproduces [span]: its layout, and what
    a reader finds in it. *)
Definition reproduced_in (span : ReadOnlySpan) (d : bytes) : Prop :=
  (exists ta te tn ts,
     d = B "{" ++ [newline]
         ++ B "  " ++ quoted "attributes" ++ B ": " ++ ta ++ B "," ++ [newline]
         ++ B "  " ++ quoted "endTime" ++ B ": " ++ te ++ B "," ++ [newline]
         ++ B "  " ++ quoted "name" ++ B ": " ++ tn ++ B "," ++ [newline]
         ++ B "  " ++ quoted "startTime" ++ B ": " ++ ts ++ [newline]
         ++ B "}")
  /\ exists a,
       read_json d
       = Some (JObject [("attributes"%string, a);
                        ("endTime"%string, JString (rfc3339 (EndTime span)));
                        ("name"%string, JString (coerced (Name span)));
                        ("startTime"%string,
                         JString (rfc3339 (StartTime span)))])
       /\ attributes_read (Attributes span) a
       /\ (ValidString (Name span) = true -> coerced (Name span) = Name span)
       /\ (valid_time (EndTime span) = true ->
           t_offset (EndTime span) mod 60 = 0 ->
           read_time (B (rfc3339 (EndTime span))) = Some (EndTime span))
       /\ (valid_time (StartTime span) = true ->
           t_offset (StartTime span) mod 60 = 0 ->
           read_time (B (rfc3339 (StartTime span))) = Some (StartTime span)).

(** A span whose name is the single byte [0xFE], not UTF-8 either. *)
Definition other_binary_name_span : ReadOnlySpan :=
  {| Name := String "254" EmptyString; StartTime := noon;
     EndTime := a_bit_later; Attributes := None |}.

(* ===================================================================== *)
(** * Properties *)
(* ===================================================================== *)

(** ** The document of a span *)

Lemma spanToMap_sorted span :
  merge_sort key_le (map_to_list (spanToMap span)) =
  [("attributes"%string, any_KeyValues (Attributes span));
   ("endTime"%string, any_Time (EndTime span));
   ("name"%string, any_string (Name span));
   ("startTime"%string, any_Time (StartTime span))].
Proof. vm_compute. reflexivity. Qed.

Lemma Marshal_spanToMap span : Marshal (spanToMap span) = span_object span.
Proof.
  unfold Marshal, encodeMap, span_object. rewrite spanToMap_sorted.
  cbn [rmap fst snd].
  change (encodeAny (any_Time (EndTime span))) with (encodeTime (EndTime span)).
  change (encodeAny (any_Time (StartTime span))) with (encodeTime (StartTime span)).
  change (encodeAny (any_string (Name span))) with (Ok (JString (Name span))).
  destruct (encodeAny (any_KeyValues (Attributes span))); cbn [rbind]; [|done].
  destruct (encodeTime (EndTime span)); cbn [rbind]; [|done].
  destruct (encodeTime (StartTime span)); cbn [rbind]; done.
Qed.

Lemma MarshalIndent_spanToMap span :
  MarshalIndent (spanToMap span) "" "  " =
  match span_document span with
  | Ok d => (d, None)
  | Err e => ([], Some e)
  end.
Proof.
  unfold MarshalIndent, span_document. rewrite Marshal_spanToMap.
  destruct (span_object span); reflexivity.
Qed.

(** ** Writing at a position *)

Lemma write_at_end (d old : bytes) : write_at (length old) d old = old ++ d.
Proof.
  unfold write_at. destruct d as [|c d]; [by rewrite app_nil_r|].
  rewrite take_ge by lia. rewrite Nat.sub_diag. simpl.
  rewrite drop_ge by (simpl; lia). by rewrite app_nil_r.
Qed.

Lemma write_at_length (p : nat) (d old : bytes) :
  d ≠ [] -> length (write_at p d old) = Nat.max (length old) (p + length d).
Proof.
  intros Hd. unfold write_at. destruct d as [|c d]; [done|].
  rewrite !length_app, length_take, length_replicate, length_drop. simpl. lia.
Qed.

Lemma take_app_exact {A} (X D R : list A) (p : nat) :
  length X = p -> take (p + length D) (X ++ D ++ R) = X ++ D.
Proof.
  intros <-. rewrite app_assoc. apply take_app_length'.
  by rewrite length_app.
Qed.

Lemma drop_app_exact {A} (X D R : list A) (p n : nat) :
  length X = p -> drop (p + length D + n) (X ++ D ++ R) = drop n R.
Proof.
  intros <-. rewrite app_assoc, <- length_app.
  rewrite <- drop_drop. by rewrite drop_app_length.
Qed.

Lemma write_at_cons (p : nat) (c : ascii) (d old : bytes) :
  write_at p (c :: d) old =
  (take p old ++ replicate (p - length old) zero) ++ (c :: d)
  ++ drop (p + length (c :: d)) old.
Proof. unfold write_at. by rewrite <- app_assoc. Qed.

Lemma write_at_app (p : nat) (d1 d2 old : bytes) :
  write_at (p + length d1) d2 (write_at p d1 old) = write_at p (d1 ++ d2) old.
Proof.
  destruct d1 as [|c1 d1].
  { simpl. by rewrite Nat.add_0_r. }
  destruct d2 as [|c2 d2].
  { simpl. by rewrite app_nil_r. }
  rewrite (write_at_cons p c1 d1).
  set (X := take p old ++ replicate (p - length old) zero).
  assert (HX : length X = p).
  { unfold X. rewrite length_app, length_take, length_replicate. lia. }
  set (D1 := c1 :: d1). set (D2 := c2 :: d2).
  set (R := drop (p + length D1) old).
  rewrite (write_at_cons (p + length D1) c2 d2). fold D2.
  rewrite (take_app_exact X D1 R p HX).
  replace (p + length D1 - length (X ++ D1 ++ R))%nat with 0%nat
    by (rewrite !length_app, HX; lia).
  rewrite (drop_app_exact X D1 R p (length D2) HX).
  unfold R. rewrite drop_drop.
  change ((c1 :: d1) ++ c2 :: d2) with (c1 :: (d1 ++ D2)).
  rewrite (write_at_cons p c1 (d1 ++ D2)). fold X.
  change (c1 :: d1 ++ D2) with (D1 ++ D2).
  rewrite length_app. cbn [replicate]. rewrite app_nil_r.
  rewrite <- !app_assoc. do 3 f_equal. f_equal. lia.
Qed.

(** ** Writing and closing an open file *)

Lemma advance_0 h : advance 0 h = h.
Proof. destruct h. unfold advance. simpl. by rewrite Nat.add_0_r. Qed.

Lemma advance_advance n m h : advance m (advance n h) = advance (n + m) h.
Proof. unfold advance. simpl. by rewrite Nat.add_assoc. Qed.

Lemma same_but_refl path id w : same_but path id w w.
Proof. repeat split; done. Qed.

Lemma same_but_trans path id w1 w2 w3 :
  same_but path id w1 w2 -> same_but path id w2 w3 -> same_but path id w1 w3.
Proof.
  intros (a1 & a2 & a3 & a4 & a5 & a6 & a7) (b1 & b2 & b3 & b4 & b5 & b6 & b7).
  repeat split; try congruence.
  - intros q Hq. rewrite b6, a6; done.
  - intros j Hj. rewrite b7, a7; done.
Qed.

Lemma File_Write_closed id h b w :
  handles w !! id = Some h -> f_closed h = true ->
  File_Write (Some id) b w =
  Ret ((0%nat, Some (PathError "write" (f_name h) ErrClosed)), w).
Proof. intros Hh Hc. unfold File_Write. by rewrite Hh, Hc. Qed.

Lemma File_Write_open id h b w :
  handles w !! id = Some h -> f_closed h = false ->
  exists w',
    let n := Nat.min (length b) (free w) in
    File_Write (Some id) b w =
      Ret ((n, if (n <? length b)%nat
               then Some (PathError "write" (f_name h) ENOSPC) else None), w')
    /\ content w' (f_name h) =
       write_at (f_pos h) (take n b) (content w (f_name h))
    /\ handles w' !! id = Some (advance n h)
    /\ free w' = (free w - n)%nat
    /\ same_but (f_name h) id w w'.
Proof.
  intros Hh Hc. unfold File_Write. rewrite Hh, Hc.
  eexists. cbn zeta. split; [reflexivity|].
  split.
  { unfold content at 1. cbn. by rewrite lookup_insert_eq. }
  split.
  { cbn. rewrite lookup_insert_eq. unfold advance. by rewrite Hc. }
  split; [done|].
  repeat split; cbn; try done.
  - intros q Hq. by rewrite lookup_insert_ne.
  - intros j Hj. by rewrite lookup_insert_ne.
Qed.

Lemma File_Close_open id h w :
  handles w !! id = Some h -> f_closed h = false ->
  File_Close (Some id) w =
  Ret (None, set_handles (<[id := close_file h]> (handles w)) w).
Proof. intros Hh Hc. unfold File_Close. by rewrite Hh, Hc. Qed.

Lemma File_Close_closed id h w :
  handles w !! id = Some h -> f_closed h = true ->
  File_Close (Some id) w =
  Ret (Some (PathError "close" (f_name h) ErrClosed), w).
Proof. intros Hh Hc. unfold File_Close. by rewrite Hh, Hc. Qed.

(** ** The export loop *)

Lemma ExportSpans_nil f ctx w : ExportSpans f ctx [] w = Ret (None, w).
Proof. reflexivity. Qed.

Lemma ExportSpans_cons fe ctx span spans w :
  ExportSpans (Some fe) ctx (span :: spans) w =
  match span_document span with
  | Err e => Ret (Some e, w)
  | Ok d =>
      match File_Write (file fe) (d ++ [newline]) w with
      | Ret ((_, Some e), w') => Ret (Some e, w')
      | Ret ((_, None), w') => ExportSpans (Some fe) ctx spans w'
      | Panic msg => Panic msg
      end
  end.
Proof.
  cbn [ExportSpans]. rewrite MarshalIndent_spanToMap.
  destruct (span_document span) as [d|e]; [|reflexivity].
  unfold bind, deref.
  destruct (File_Write (file fe) (d ++ [newline]) w) as [[[n [e|]] w']|msg];
    reflexivity.
Qed.

Lemma ExportSpans_nil_receiver ctx span spans w :
  ExportSpans None ctx (span :: spans) w =
  match span_document span with
  | Err e => Ret (Some e, w)
  | Ok _ => Panic nil_dereference
  end.
Proof.
  cbn [ExportSpans]. rewrite MarshalIndent_spanToMap.
  destruct (span_document span) as [d|e]; reflexivity.
Qed.

Lemma File_Write_returns f b w : exists r w', File_Write f b w = Ret (r, w').
Proof.
  unfold File_Write. destruct f as [id|]; [|eauto].
  destruct (handles w !! id) as [h|]; [|eauto].
  destruct (f_closed h); eauto.
Qed.

(** With an exporter to write to, the loop always returns. *)
Lemma ExportSpans_returns fe ctx spans :
  forall w, exists r w', ExportSpans (Some fe) ctx spans w = Ret (r, w').
Proof.
  induction spans as [|span spans IH]; intros w.
  - eauto.
  - rewrite ExportSpans_cons. destruct (span_document span) as [d|e]; [|eauto].
    destruct (File_Write_returns (file fe) (d ++ [newline]) w) as ([n err] & w' & ->).
    destruct err; eauto.
Qed.

(** Exporting a sequence is exporting a prefix of it and then, if that
    went through, the rest. *)
Lemma ExportSpans_app fe ctx pre rest :
  forall w w1,
    ExportSpans (Some fe) ctx pre w = Ret (None, w1) ->
    ExportSpans (Some fe) ctx (pre ++ rest) w = ExportSpans (Some fe) ctx rest w1.
Proof.
  induction pre as [|span pre IH]; intros w w1 H.
  - rewrite ExportSpans_nil in H. by inversion H.
  - cbn [app]. rewrite ExportSpans_cons in *.
    destruct (span_document span) as [d|e]; [|done].
    destruct (File_Write (file fe) (d ++ [newline]) w) as [[[n [e|]] w']|msg];
      try done.
    by apply IH.
Qed.

(** A closed descriptor: the loop changes nothing. *)
Lemma ExportSpans_closed fe ctx id h spans w r w' :
  file fe = Some id -> handles w !! id = Some h -> f_closed h = true ->
  ExportSpans (Some fe) ctx spans w = Ret (r, w') -> w' = w.
Proof.
  intros Hf Hh Hc. destruct spans as [|span spans].
  - rewrite ExportSpans_nil. by inversion 1.
  - rewrite ExportSpans_cons. destruct (span_document span) as [d|e].
    + rewrite Hf, (File_Write_closed id h _ w Hh Hc). by inversion 1.
    + by inversion 1.
Qed.

Lemma span_document_Ok span d :
  span_document span = Ok d <-> is_document_of span d.
Proof.
  unfold span_document, span_object, is_document_of.
  destruct (encodeAny (any_KeyValues (Attributes span))) as [a|]; cbn [rbind].
  2:{ split; [done|]. by intros (? & ? & ? & ? & _). }
  destruct (encodeTime (EndTime span)) as [e|]; cbn [rbind].
  2:{ split; [done|]. by intros (? & ? & ? & _ & ? & _). }
  destruct (encodeTime (StartTime span)) as [s|]; cbn [rbind].
  2:{ split; [done|]. by intros (? & ? & ? & _ & _ & ? & _). }
  split.
  - intros [= <-]. by exists a, e, s.
  - intros (? & ? & ? & [= <-] & [= <-] & [= <-] & ->). done.
Qed.

(** Everything one call of the loop does to the state: it writes some
    bytes [data] at the descriptor's position and advances the descriptor;
    if it returns no error, [data] is the documents of all the spans. *)
Lemma ExportSpans_effect fe ctx id spans :
  file fe = Some id ->
  forall w r w' h,
    handles w !! id = Some h ->
    ExportSpans (Some fe) ctx spans w = Ret (r, w') ->
    exists data,
      content w' (f_name h) = write_at (f_pos h) data (content w (f_name h))
      /\ handles w' !! id = Some (advance (length data) h)
      /\ free w' = (free w - length data)%nat
      /\ same_but (f_name h) id w w'
      /\ (r = None ->
          exists docs, Forall2 is_document_of spans docs /\ data = lines docs).
Proof.
  intros Hf. induction spans as [|span spans IH]; intros w r w' h Hh H.
  - rewrite ExportSpans_nil in H. inversion H; subst. exists [].
    cbn [length]. rewrite advance_0, Nat.sub_0_r.
    repeat split; try done. intros _. exists []. by split; [constructor|].
  - rewrite ExportSpans_cons in H.
    destruct (span_document span) as [d|e] eqn:Hd.
    2:{ inversion H; subst. exists []. cbn [length].
        rewrite advance_0, Nat.sub_0_r. repeat split; done. }
    rewrite Hf in H. destruct (f_closed h) eqn:Hc.
    { rewrite (File_Write_closed id h _ w Hh Hc) in H. inversion H; subst.
      exists []. cbn [length]. rewrite advance_0, Nat.sub_0_r.
      repeat split; done. }
    destruct (File_Write_open id h (d ++ [newline]) w Hh Hc)
      as (w1 & HW & Hcont & Hhd & Hfree & Hsame).
    cbn zeta in *. rewrite HW in H.
    set (b := d ++ [newline]) in *.
    destruct (Nat.ltb_spec (Nat.min (length b) (free w)) (length b)) as [Hlt|Hge].
    { inversion H; subst. exists (take (Nat.min (length b) (free w)) b).
      rewrite length_take.
      replace (Nat.min (Nat.min (length b) (free w)) (length b))
        with (Nat.min (length b) (free w)) by lia.
      repeat split; try done. apply Hsame. apply Hsame. apply Hsame.
      apply Hsame. apply Hsame. apply Hsame. apply Hsame. }
    assert (Hn : Nat.min (length b) (free w) = length b) by lia.
    rewrite Hn in *. rewrite take_ge in Hcont by lia.
    destruct (IH w1 r w' (advance (length b) h) Hhd H)
      as (data & Hc' & Hh' & Hf' & Hs' & Hdocs).
    cbn [advance f_name f_pos] in Hc', Hs'.
    exists (b ++ data). rewrite length_app.
    split. { rewrite Hc', Hcont. apply write_at_app. }
    split. { rewrite Hh'. by rewrite advance_advance. }
    split. { lia. }
    split. { eapply same_but_trans; eauto. }
    intros ->. destruct (Hdocs eq_refl) as (docs & HF & ->).
    exists (d :: docs). split.
    + constructor; [by apply span_document_Ok|done].
    + reflexivity.
Qed.

(** C2.  Let the spans before [span] export without error, ending in the
    state [w1].  If [span] then fails, either because it does not
    serialise or because the write of its document returns an error, the
    call returns that error, whatever spans follow, and ends in the state
    of the failure: [w1] itself, or [w1] after the failed write.  The
    documents of the earlier spans are still in the file, followed by the
    bytes the failed write got through, if any. *)
Theorem ExportSpans_first_error fe ctx id h pre span post w w1 e w2 :
  file fe = Some id ->
  handles w !! id = Some h ->
  ExportSpans (Some fe) ctx pre w = Ret (None, w1) ->
  ((MarshalIndent (spanToMap span) "" "  ").2 = Some e /\ w2 = w1)
  \/ (exists data n,
        MarshalIndent (spanToMap span) "" "  " = (data, None) /\
        File_Write (file fe) (data ++ [newline]) w1 = Ret ((n, Some e), w2)) ->
  ExportSpans (Some fe) ctx (pre ++ span :: post) w = Ret (Some e, w2)
  /\ exists docs partial,
       Forall2 is_document_of pre docs
       /\ content w2 (f_name h)
          = write_at (f_pos h) (lines docs ++ partial) (content w (f_name h)).
Proof.
  intros Hf Hh Hpre Hfail.
  assert (Hrun : ExportSpans (Some fe) ctx (pre ++ span :: post) w
                 = Ret (Some e, w2)).
  { rewrite (ExportSpans_app fe ctx pre (span :: post) w w1 Hpre).
    rewrite ExportSpans_cons. rewrite MarshalIndent_spanToMap in Hfail.
    destruct Hfail as [[He ->]|(data & n & Hm & HW)].
    - destruct (span_document span); cbn in He; congruence.
    - destruct (span_document span) as [d|]; [|cbn in Hm; congruence].
      inversion Hm; subst. by rewrite HW. }
  split; [done|].
  destruct (ExportSpans_effect fe ctx id pre Hf w None w1 h Hh Hpre)
    as (data1 & Hc1 & Hh1 & _ & _ & Hdocs).
  destruct (Hdocs eq_refl) as (docs & HF & ->).
  assert (Hone : ExportSpans (Some fe) ctx [span] w1 = Ret (Some e, w2)).
  { rewrite ExportSpans_cons. rewrite MarshalIndent_spanToMap in Hfail.
    destruct Hfail as [[He ->]|(data & n & Hm & HW)].
    - destruct (span_document span); cbn in He; congruence.
    - destruct (span_document span) as [d|]; [|cbn in Hm; congruence].
      inversion Hm; subst. by rewrite HW. }
  destruct (ExportSpans_effect fe ctx id [span] Hf w1 _ w2 _ Hh1 Hone)
    as (partial & Hc2 & _).
  cbn [advance f_name f_pos] in Hc2.
  exists docs, partial. split; [done|].
  rewrite Hc2, Hc1. apply write_at_app.
Qed.

Lemma ExportSpans_first_error_witness :
  ExportSpans (Some the_exporter) Background
    ([request_span] ++ far_future_span :: [query_span]) opened_world
  = Ret (Some (MarshalerError "time.Time"
                 (ErrorString "Time.MarshalJSON: year outside of range [0,9999]")
                 "MarshalJSON"),
         world_of (ExportSpans (Some the_exporter) Background [request_span]
                     opened_world))
  /\ exists docs partial,
       Forall2 is_document_of [request_span] docs
       /\ content
            (world_of (ExportSpans (Some the_exporter) Background
                         [request_span] opened_world)) (f_name the_file)
          = write_at (f_pos the_file) (lines docs ++ partial)
              (content opened_world (f_name the_file)).
Proof.
  apply (ExportSpans_first_error the_exporter Background 0%nat the_file
           [request_span] far_future_span [query_span] opened_world
           (world_of (ExportSpans (Some the_exporter) Background
                        [request_span] opened_world))).
  - reflexivity.
  - vm_compute. reflexivity.
  - vm_compute. reflexivity.
  - left. split; [vm_compute; reflexivity | reflexivity].
Defined.

(** ** Appending *)

(** C10, as the code has it.  When the exporter's descriptor stands at the
    end of the output file, a call of [ExportSpans] returns, with or
    without an error, and only appends: the file is its old content
    followed by what the call wrote, no other file changes, and the
    descriptor stands at the end of the file again. *)
Theorem ExportSpans_appends fe ctx id h spans w :
  file fe = Some id ->
  handles w !! id = Some h ->
  f_pos h = length (content w (f_name h)) ->
  exists r w' data,
    ExportSpans (Some fe) ctx spans w = Ret (r, w')
    /\ content w' (f_name h) = content w (f_name h) ++ data
    /\ content w (f_name h) `prefix_of` content w' (f_name h)
    /\ (forall q, q <> f_name h -> content w' q = content w q)
    /\ at_end w' id.
Proof.
  intros Hf Hh Hp.
  destruct (ExportSpans_returns fe ctx spans w) as (r & w' & H).
  destruct (ExportSpans_effect fe ctx id spans Hf w r w' h Hh H)
    as (data & Hc & Hh' & _ & Hs & _).
  rewrite Hp, write_at_end in Hc.
  exists r, w', data. split; [done|]. split; [done|].
  split. { rewrite Hc. by apply prefix_app_r. }
  split. { intros q Hq. unfold content. destruct Hs as (_&_&_&_&_&Hfiles&_).
           by rewrite Hfiles. }
  exists (advance (length data) h). split; [done|].
  cbn [advance f_name f_pos]. rewrite Hc, length_app. lia.
Qed.

Lemma ExportSpans_appends_witness :
  exists r w' data,
    ExportSpans (Some the_exporter) Background [request_span] opened_world
      = Ret (r, w')
    /\ content w' (f_name the_file)
       = content opened_world (f_name the_file) ++ data
    /\ content opened_world (f_name the_file)
         `prefix_of` content w' (f_name the_file)
    /\ (forall q, q <> f_name the_file -> content w' q = content opened_world q)
    /\ at_end w' 0%nat.
Proof.
  apply (ExportSpans_appends the_exporter Background 0%nat the_file
           [request_span] opened_world).
  - reflexivity.
  - vm_compute. reflexivity.
  - vm_compute. reflexivity.
Defined.

(** A new exporter's descriptor stands at the end of its (empty) file. *)
Lemma NewFileSpanExporter_at_end filename w fe w' :
  NewFileSpanExporter filename w = Ret ((Some fe, None), w') ->
  exists id, file fe = Some id /\ at_end w' id.
Proof.
  unfold NewFileSpanExporter, bind, os_Create.
  destruct (create_errno w filename); [done|]. cbn.
  intros [= <- <-]. eexists. split; [reflexivity|].
  eexists. cbn. rewrite lookup_insert_eq. split; [reflexivity|].
  unfold content. cbn. by rewrite lookup_insert_eq.
Qed.

(** C10 as stated fails.  Two exporters are created on one path: the
    second truncates the file and has its own descriptor at position 0.
    After the first has exported a span, an export through the second
    overwrites the bytes the first one wrote. *)
Lemma ExportSpans_overwrites_with_two_exporters :
  exists a b w1 w2 w3 r w4,
    NewFileSpanExporter out_json initial_world = Ret ((Some a, None), w1) /\
    NewFileSpanExporter out_json w1 = Ret ((Some b, None), w2) /\
    ExportSpans (Some a) Background [request_span] w2 = Ret (None, w3) /\
    ExportSpans (Some b) Background [query_span] w3 = Ret (r, w4) /\
    ~ (content w3 out_json `prefix_of` content w4 out_json).
Proof.
  do 7 eexists.
  split; [vm_compute; reflexivity|].
  split; [vm_compute; reflexivity|].
  split; [vm_compute; reflexivity|].
  split; [vm_compute; reflexivity|].
  apply (proj1 (bool_decide_eq_false _)). vm_compute. reflexivity.
Qed.

(** ** Construction and shutdown of the exporter *)

(** C6.  Where [os.Create] has no reason to fail, [NewFileSpanExporter]
    returns no error and an exporter holding a new, open file at position
    0 on the path, which now names an empty file whatever it held before;
    no other file changes.  Where it has a reason to fail, the reason is
    returned as the error, the exporter is nil and nothing changes.  A path
    in a directory that does not exist is such a reason. *)
Theorem NewFileSpanExporter_creates_or_fails filename w :
  match create_errno w filename with
  | None =>
      exists id w',
        NewFileSpanExporter filename w
          = Ret ((Some {| file := Some id |}, None), w')
        /\ handles w !! id = None
        /\ handles w' !! id
           = Some {| f_name := filename; f_pos := 0; f_closed := false |}
        /\ files w' !! filename = Some []
        /\ (forall q, q <> filename -> files w' !! q = files w !! q)
  | Some e =>
      NewFileSpanExporter filename w
        = Ret ((None, Some (PathError "open" filename e)), w)
  end
  /\ (dirname filename ∉ dirs w -> create_errno w filename = Some ENOENT).
Proof.
  split.
  - unfold NewFileSpanExporter, bind, os_Create.
    destruct (create_errno w filename) as [e|]; [reflexivity|].
    exists (fresh (dom (handles w))). eexists.
    split; [reflexivity|].
    cbn [handles files set_handles set_files]. split.
    { apply not_elem_of_dom. apply is_fresh. }
    split. { by rewrite lookup_insert_eq. }
    split. { by rewrite lookup_insert_eq. }
    intros q Hq. by rewrite lookup_insert_ne.
  - intros Hd. unfold create_errno.
    destruct (bool_decide (filename = "")); [done|].
    by rewrite bool_decide_eq_true_2.
Qed.

Lemma NewFileSpanExporter_creates_or_fails_witness :
  (exists id w',
     NewFileSpanExporter out_json initial_world
       = Ret ((Some {| file := Some id |}, None), w')
     /\ handles initial_world !! id = None
     /\ handles w' !! id
        = Some {| f_name := out_json; f_pos := 0; f_closed := false |}
     /\ files w' !! out_json = Some []
     /\ (forall q, q <> out_json -> files w' !! q = files initial_world !! q))
  /\ NewFileSpanExporter "/nodir/out.json" initial_world
     = Ret ((None, Some (PathError "open" "/nodir/out.json" ENOENT)),
            initial_world).
Proof.
  split.
  - exact (proj1 (NewFileSpanExporter_creates_or_fails out_json initial_world)).
  - exact (proj1 (NewFileSpanExporter_creates_or_fails "/nodir/out.json"
                    initial_world)).
Defined.

Lemma Shutdown_Some fe ctx w : Shutdown (Some fe) ctx w = File_Close (file fe) w.
Proof.
  unfold Shutdown, bind, deref.
  reflexivity.
Qed.

Lemma Shutdown_nil ctx w : Shutdown None ctx w = Panic nil_dereference.
Proof. reflexivity. Qed.

(** C5.  [Shutdown] returns what closing the file returns.  On an open
    file it closes the descriptor, returns no error and leaves every file
    as it is; a second call returns an error, the file being closed
    already, and changes nothing at all. *)
Theorem Shutdown_closes_and_is_not_idempotent fe ctx id h w :
  file fe = Some id ->
  handles w !! id = Some h ->
  f_closed h = false ->
  (forall w0, Shutdown (Some fe) ctx w0 = File_Close (file fe) w0)
  /\ exists w1,
       Shutdown (Some fe) ctx w = Ret (None, w1)
       /\ handles w1 !! id = Some (close_file h)
       /\ files w1 = files w
       /\ Shutdown (Some fe) ctx w1
          = Ret (Some (PathError "close" (f_name h) ErrClosed), w1).
Proof.
  intros Hf Hh Hc. split; [apply Shutdown_Some|].
  eexists. rewrite !Shutdown_Some, Hf.
  split; [by apply File_Close_open|].
  assert (Hh1 : handles (set_handles (<[id:=close_file h]> (handles w)) w) !! id
                = Some (close_file h)).
  { cbn [handles set_handles]. by rewrite lookup_insert_eq. }
  split; [done|]. split; [done|].
  by rewrite (File_Close_closed id (close_file h) _ Hh1).
Qed.

Lemma Shutdown_closes_and_is_not_idempotent_witness :
  (forall w0, Shutdown (Some the_exporter) Background w0
              = File_Close (file the_exporter) w0)
  /\ exists w1,
       Shutdown (Some the_exporter) Background opened_world = Ret (None, w1)
       /\ handles w1 !! 0%nat = Some (close_file the_file)
       /\ files w1 = files opened_world
       /\ Shutdown (Some the_exporter) Background w1
          = Ret (Some (PathError "close" (f_name the_file) ErrClosed), w1).
Proof.
  apply (Shutdown_closes_and_is_not_idempotent the_exporter Background 0%nat
           the_file opened_world).
  - reflexivity.
  - vm_compute. reflexivity.
  - reflexivity.
Defined.

(** ** The pipeline and its teardown *)

Lemma cleanup_unfold p w :
  cleanup p w =
  match TracerProvider_Shutdown p teardown_context w with
  | Ret (_, w') => Ret (tt, w')
  | Panic msg => Panic msg
  end.
Proof.
  unfold cleanup, bind, teardown_context. cbn [WithCancel fst].
  destruct (TracerProvider_Shutdown _ _ w) as [[[e|] w']|msg]; reflexivity.
Qed.

Lemma TracerProvider_Shutdown_active p tp e w :
  providers w !! p = Some tp ->
  tp_isShutdown tp = false ->
  tp_batcher tp = Some e ->
  TracerProvider_Shutdown p teardown_context w =
  (export_batches e teardown_context
     (batches MaxExportBatchSize [] (tp_queue tp)) ;;;
   err <- exporter_Shutdown e teardown_context ;;
   handle_if_error err ;;;
   ret None) (draining p tp w).
Proof.
  intros Hp Hs He. unfold TracerProvider_Shutdown. rewrite Hp, Hs, He.
  reflexivity.
Qed.

Lemma TracerProvider_Shutdown_done p tp ctx w :
  providers w !! p = Some tp ->
  tp_isShutdown tp = true ->
  TracerProvider_Shutdown p ctx w = Ret (None, w).
Proof. intros Hp Hs. unfold TracerProvider_Shutdown. by rewrite Hp, Hs. Qed.

Lemma lines_app docs1 docs2 : lines (docs1 ++ docs2) = lines docs1 ++ lines docs2.
Proof. unfold lines. by rewrite map_app, concat_app. Qed.







Lemma TraceFileProvider_unfold filePath serviceName serviceVersion w exporter err w1 :
  NewFileSpanExporter filePath w = Ret ((exporter, err), w1) ->
  TraceFileProvider filePath serviceName serviceVersion w =
  Ret ((cleanup (fresh (dom (providers w1))), None),
       installed (fresh (dom (providers w1)))
         (pipeline_of exporter serviceName serviceVersion) w1).
Proof.
  intros H. unfold TraceFileProvider, bind. rewrite H.
  destruct err; reflexivity.
Qed.

Lemma NewFileSpanExporter_fails filename w e :
  create_errno w filename = Some e ->
  NewFileSpanExporter filename w
  = Ret ((None, Some (PathError "open" filename e)), w).
Proof.
  intros H. unfold NewFileSpanExporter, bind, os_Create. by rewrite H.
Qed.

(** C3 as stated fails: the path lies in a directory that does not exist,
    the constructor reports the failure, and the setup routine returns a
    nil error to its caller. *)
Lemma TraceFileProvider_returns_nil_error_after_failed_construction :
  exists e r w',
    NewFileSpanExporter "/nodir/out.json" initial_world
      = Ret ((None, Some e), initial_world)
    /\ TraceFileProvider "/nodir/out.json" "svc" "1.0" initial_world
       = Ret (r, w')
    /\ r.2 = None.
Proof.
  do 3 eexists. split; [vm_compute; reflexivity|].
  split.
  - apply (TraceFileProvider_unfold _ _ _ _ None
             (Some (PathError "open" "/nodir/out.json" ENOENT)) initial_world).
    vm_compute. reflexivity.
  - reflexivity.
Qed.

(** C3, as the code has it.  When [os.Create] fails, the constructor
    reports the failure to the setup routine, as a nil exporter and the
    error.  The setup routine does nothing about it: it builds the
    pipeline around the nil exporter, with the always-sample policy and
    the service's resource, installs it in the global slot, and returns
    the teardown closure with a nil error. *)
Theorem TraceFileProvider_ignores_failed_construction
    filePath serviceName serviceVersion w e :
  create_errno w filePath = Some e ->
  let p := fresh (dom (providers w)) in
  let w' := installed p (pipeline_of None serviceName serviceVersion) w in
  NewFileSpanExporter filePath w
    = Ret ((None, Some (PathError "open" filePath e)), w)
  /\ TraceFileProvider filePath serviceName serviceVersion w
     = Ret ((cleanup p, None), w')
  /\ providers w !! p = None
  /\ providers w' !! p = Some (pipeline_of None serviceName serviceVersion)
  /\ globalTracerProvider w' = Some p
  /\ files w' = files w /\ handles w' = handles w.
Proof.
  intros H p w'.
  pose proof (NewFileSpanExporter_fails filePath w e H) as HN.
  split; [done|]. split.
  { by rewrite (TraceFileProvider_unfold _ _ _ _ _ _ _ HN). }
  split. { apply not_elem_of_dom. apply is_fresh. }
  split. { subst w'. cbn [installed providers set_global set_providers].
           by rewrite lookup_insert_eq. }
  repeat split.
Qed.

Lemma TraceFileProvider_ignores_failed_construction_witness :
  let p := fresh (dom (providers initial_world)) in
  let w' := installed p (pipeline_of None "svc" "1.0") initial_world in
  NewFileSpanExporter "/nodir/out.json" initial_world
    = Ret ((None, Some (PathError "open" "/nodir/out.json" ENOENT)),
           initial_world)
  /\ TraceFileProvider "/nodir/out.json" "svc" "1.0" initial_world
     = Ret ((cleanup p, None), w')
  /\ providers initial_world !! p = None
  /\ providers w' !! p = Some (pipeline_of None "svc" "1.0")
  /\ globalTracerProvider w' = Some p
  /\ files w' = files initial_world /\ handles w' = handles initial_world.
Proof.
  apply (TraceFileProvider_ignores_failed_construction "/nodir/out.json"
           "svc" "1.0" initial_world ENOENT).
  vm_compute. reflexivity.
Defined.

(** ** The nil exporter *)

Lemma export_batches_nil ctx bs :
  forall w,
    export_batches (SpanExporter_of None) ctx bs w = Panic nil_dereference
    \/ exists w', export_batches (SpanExporter_of None) ctx bs w = Ret (tt, w').
Proof.
  induction bs as [|b bs IH]; intros w.
  - right. by exists w.
  - cbn [export_batches exporter_ExportSpans]. unfold bind.
    destruct b as [|span b].
    + rewrite ExportSpans_nil. cbn [handle_if_error ret]. apply IH.
    + rewrite ExportSpans_nil_receiver.
      destruct (span_document span) as [d|e]; [by left|].
      cbn [handle_if_error Handle]. apply IH.
Qed.

Lemma cleanup_nil_exporter p tp w :
  providers w !! p = Some tp ->
  tp_isShutdown tp = false ->
  tp_batcher tp = Some (SpanExporter_of None) ->
  cleanup p w = Panic nil_dereference.
Proof.
  intros Hp Hs Hb.
  rewrite cleanup_unfold, (TracerProvider_Shutdown_active p tp _ w Hp Hs Hb).
  unfold bind at 1.
  destruct (export_batches_nil teardown_context
              (batches MaxExportBatchSize [] (tp_queue tp)) (draining p tp w))
    as [->|(w' & ->)]; reflexivity.
Qed.

(** C4 as stated fails: after a failed construction, [ExportSpans] on the
    nil exporter with an empty batch returns nil. *)
Lemma ExportSpans_on_nil_exporter_returns_for_empty_batch :
  exists e,
    NewFileSpanExporter "/nodir/out.json" initial_world
      = Ret ((None, Some e), initial_world)
    /\ ExportSpans None Background [] initial_world = Ret (None, initial_world).
Proof. eexists. split; [vm_compute; reflexivity|reflexivity]. Qed.

(** C4, as the code has it.  After a failed construction the exporter
    pointer is nil and the pipeline is built around it.  No guard stands
    before the field [file]: [Shutdown] on the nil exporter panics,
    [ExportSpans] on it panics as soon as a span has been serialised and
    is to be written, and so the teardown of that pipeline panics.
    [ExportSpans] on the nil exporter returns nil for an empty batch, and
    the serialisation error if the first span does not serialise. *)
Theorem nil_exporter_panics_on_use filePath serviceName serviceVersion w e ctx :
  create_errno w filePath = Some e ->
  (exists err, NewFileSpanExporter filePath w = Ret ((None, Some err), w))
  /\ (exists r w',
        TraceFileProvider filePath serviceName serviceVersion w = Ret (r, w')
        /\ r.1 w' = Panic nil_dereference)
  /\ (forall w0, Shutdown None ctx w0 = Panic nil_dereference)
  /\ (forall w0 span spans data,
        MarshalIndent (spanToMap span) "" "  " = (data, None) ->
        ExportSpans None ctx (span :: spans) w0 = Panic nil_dereference)
  /\ (forall w0, ExportSpans None ctx [] w0 = Ret (None, w0))
  /\ (forall w0 span spans err,
        (MarshalIndent (spanToMap span) "" "  ").2 = Some err ->
        ExportSpans None ctx (span :: spans) w0 = Ret (Some err, w0))
  /\ (forall w0 p tp,
        providers w0 !! p = Some tp ->
        tp_isShutdown tp = false ->
        tp_batcher tp = Some (SpanExporter_of None) ->
        cleanup p w0 = Panic nil_dereference).
Proof.
  intros H.
  destruct (TraceFileProvider_ignores_failed_construction filePath
              serviceName serviceVersion w e H)
    as (HN & HT & _ & Hp & _).
  split; [eauto|]. split.
  { do 2 eexists. split; [exact HT|]. cbn [fst].
    by apply (cleanup_nil_exporter _ _ _ Hp). }
  split; [done|]. split.
  { intros w0 span spans data Hm. rewrite ExportSpans_nil_receiver.
    rewrite MarshalIndent_spanToMap in Hm.
    destruct (span_document span); [done|congruence]. }
  split; [done|]. split.
  { intros w0 span spans err Hm. rewrite ExportSpans_nil_receiver.
    rewrite MarshalIndent_spanToMap in Hm.
    destruct (span_document span); cbn in Hm; congruence. }
  intros w0 p tp. apply cleanup_nil_exporter.
Qed.

Lemma nil_exporter_panics_on_use_witness :
  create_errno initial_world "/nodir/out.json" = Some ENOENT
  /\ (exists err,
        NewFileSpanExporter "/nodir/out.json" initial_world
        = Ret ((None, Some err), initial_world))
  /\ (exists r w',
        TraceFileProvider "/nodir/out.json" "svc" "1.0" initial_world
          = Ret (r, w')
        /\ r.1 w' = Panic nil_dereference)
  /\ ExportSpans None Background [request_span] initial_world
     = Panic nil_dereference.
Proof.
  assert (H : create_errno initial_world "/nodir/out.json" = Some ENOENT)
    by (vm_compute; reflexivity).
  destruct (nil_exporter_panics_on_use "/nodir/out.json" "svc" "1.0"
              initial_world ENOENT Background H)
    as (H1 & H2 & _ & H4 & _).
  split; [exact H|]. split; [exact H1|]. split; [exact H2|].
  eapply H4. vm_compute. reflexivity.
Defined.


(** ** After the file has been closed *)

Lemma set_handled_set_handled l1 l2 w :
  set_handled l2 (set_handled l1 w) = set_handled l2 w.
Proof. reflexivity. Qed.

Lemma export_batches_closed fe ctx id :
  file fe = Some id ->
  forall bs w h,
    handles w !! id = Some h -> f_closed h = true ->
    exists errs,
      export_batches (SpanExporter_of (Some fe)) ctx bs w
      = Ret (tt, set_handled (handled w ++ errs) w).
Proof.
  intros Hf. induction bs as [|b bs IH]; intros w h Hh Hc.
  - exists []. rewrite app_nil_r. by destruct w.
  - cbn [export_batches exporter_ExportSpans]. unfold bind.
    destruct (ExportSpans_returns fe ctx b w) as (r & w1 & H1).
    rewrite H1. apply (ExportSpans_closed fe ctx id h b w r w1 Hf Hh Hc) in H1.
    subst w1. destruct r as [e|]; cbn [handle_if_error Handle ret].
    + destruct (IH (set_handled (handled w ++ [e]) w) h Hh Hc) as (errs & ->).
      exists (e :: errs). cbn [handled set_handled].
      rewrite set_handled_set_handled. by rewrite <- app_assoc.
    + apply (IH w h Hh Hc).
Qed.

(** C8 as stated fails: the exporter has no guard against a second close.
    Closing the exporter on [/tmp/out.json] twice gives an error the
    second time. *)
Lemma Shutdown_twice_returns_error :
  exists w1 e,
    Shutdown (Some the_exporter) Background opened_world = Ret (None, w1)
    /\ Shutdown (Some the_exporter) Background w1 = Ret (Some e, w1).
Proof. do 2 eexists. split; vm_compute; reflexivity. Qed.

(** C8, as the code has it.  Once the exporter's file has been closed, no
    operation of the exporter changes anything: [ExportSpans] returns in
    the same state, its write refused, and another [Shutdown] returns the
    error of closing a closed file, there being no guard.  In the
    teardown of a pipeline on such an exporter that error goes to the
    error handler and the closure returns normally, no file or descriptor
    having changed; the teardown of a pipeline already shut down does
    nothing. *)
Theorem closed_file_is_left_alone fe ctx id h w :
  file fe = Some id ->
  handles w !! id = Some h ->
  f_closed h = true ->
  (forall spans, exists r, ExportSpans (Some fe) ctx spans w = Ret (r, w))
  /\ (forall span spans data,
        MarshalIndent (spanToMap span) "" "  " = (data, None) ->
        ExportSpans (Some fe) ctx (span :: spans) w
        = Ret (Some (PathError "write" (f_name h) ErrClosed), w))
  /\ Shutdown (Some fe) ctx w
     = Ret (Some (PathError "close" (f_name h) ErrClosed), w)
  /\ (forall p tp,
        providers w !! p = Some tp ->
        tp_isShutdown tp = false ->
        tp_batcher tp = Some (SpanExporter_of (Some fe)) ->
        exists errs,
          cleanup p w
          = Ret (tt, set_handled
                       (handled w ++ errs
                        ++ [PathError "close" (f_name h) ErrClosed])
                       (draining p tp w)))
  /\ (forall p tp,
        providers w !! p = Some tp ->
        tp_isShutdown tp = true ->
        cleanup p w = Ret (tt, w)).
Proof.
  intros Hf Hh Hc. split.
  { intros spans. destruct (ExportSpans_returns fe ctx spans w) as (r & w' & H).
    exists r. by rewrite H, (ExportSpans_closed fe ctx id h spans w r w' Hf Hh Hc H). }
  split.
  { intros span spans data Hm. rewrite ExportSpans_cons.
    rewrite MarshalIndent_spanToMap in Hm.
    destruct (span_document span) as [d|]; [|congruence].
    by rewrite Hf, (File_Write_closed id h _ w Hh Hc). }
  split.
  { by rewrite Shutdown_Some, Hf, (File_Close_closed id h w Hh Hc). }
  split.
  { intros p tp Hp Hs Hb.
    rewrite cleanup_unfold, (TracerProvider_Shutdown_active p tp _ w Hp Hs Hb).
    destruct (export_batches_closed fe teardown_context id Hf
                (batches MaxExportBatchSize [] (tp_queue tp))
                (draining p tp w) h Hh Hc) as (errs & HE).
    exists errs. unfold bind at 1. rewrite HE. unfold bind.
    cbn [exporter_Shutdown]. rewrite Shutdown_Some, Hf.
    rewrite (File_Close_closed id h
               (set_handled (handled (draining p tp w) ++ errs) (draining p tp w))
               Hh Hc).
    cbn [handle_if_error Handle ret handled set_handled].
    rewrite set_handled_set_handled. by rewrite <- app_assoc. }
  intros p tp Hp Hs.
  by rewrite cleanup_unfold, (TracerProvider_Shutdown_done p tp _ w Hp Hs).
Qed.

Lemma closed_file_is_left_alone_witness :
  (forall spans,
     exists r, ExportSpans (Some the_exporter) Background spans closed_world
               = Ret (r, closed_world))
  /\ ExportSpans (Some the_exporter) Background [request_span] closed_world
     = Ret (Some (PathError "write" out_json ErrClosed), closed_world)
  /\ Shutdown (Some the_exporter) Background closed_world
     = Ret (Some (PathError "close" out_json ErrClosed), closed_world).
Proof.
  destruct (closed_file_is_left_alone the_exporter Background 0%nat
              (close_file the_file) closed_world)
    as (H1 & H2 & H3 & _).
  - reflexivity.
  - vm_compute. reflexivity.
  - reflexivity.
  - split; [exact H1|]. split; [|exact H3].
    eapply H2. vm_compute. reflexivity.
Defined.

(** ** Bytes *)

Lemma byte_val_range c : 0 <= byte_val c < 256.
Proof.
  unfold byte_val. pose proof (N_ascii_bounded c). lia.
Qed.

Lemma byte_of_val c : byte_of (byte_val c) = c.
Proof. unfold byte_of, byte_val. rewrite N2Z.id. apply ascii_N_embedding. Qed.

Lemma byte_val_of z : 0 <= z < 256 -> byte_val (byte_of z) = z.
Proof.
  intros H. unfold byte_of, byte_val.
  rewrite N_ascii_embedding by lia. lia.
Qed.

Lemma byte_val_inj c1 c2 : byte_val c1 = byte_val c2 -> c1 = c2.
Proof. intros H. rewrite <- (byte_of_val c1), <- (byte_of_val c2). by rewrite H. Qed.

Lemma eqb_byte_val c1 c2 :
  byte_val c1 <> byte_val c2 -> Ascii.eqb c1 c2 = false.
Proof. intros H. apply Ascii.eqb_neq. congruence. Qed.

(** ** String literals read back *)

Lemma prepend_prepend a b o : prepend a (prepend b o) = prepend (a ++ b) o.
Proof. destruct o as [[x r]|]; cbn; [by rewrite app_assoc|done]. Qed.

Lemma read_string_escape_byte c X :
  (byte_val c <? 0x80) = true ->
  read_string (escape_byte c ++ X) = prepend [c] (read_string X).
Proof.
  destruct c as [[] [] [] [] [] [] [] []]; intros H;
    try (vm_compute in H; discriminate); reflexivity.
Qed.

Lemma read_string_high c r :
  128 <= byte_val c ->
  read_string (c :: r) = prepend [c] (read_string r).
Proof.
  intros H. cbn [read_string].
  rewrite (eqb_byte_val c quote) by (vm_compute (byte_val quote); lia).
  rewrite (eqb_byte_val c backslash) by (vm_compute (byte_val backslash); lia).
  replace (byte_val c <? 32) with false by (symmetry; apply Z.ltb_ge; lia).
  reflexivity.
Qed.

Lemma read_string_copy l X :
  Forall (fun c => 128 <= byte_val c) l ->
  read_string (l ++ X) = prepend l (read_string X).
Proof.
  induction 1 as [|c l Hc _ IH]; cbn [app].
  - by destruct (read_string X) as [[? ?]|].
  - rewrite (read_string_high c _ Hc), IH. by rewrite prepend_prepend.
Qed.

Lemma read_string_replacement X :
  read_string (replacement_escape ++ X)
  = prepend (encodeRune RuneError) (read_string X).
Proof. reflexivity. Qed.

Lemma read_string_separator r X :
  r = 0x2028 \/ r = 0x2029 ->
  read_string (B "\u202" ++ [hex (r mod 16)] ++ X)
  = prepend (encodeRune r) (read_string X).
Proof. intros [-> | ->]; reflexivity. Qed.

Lemma in_range_true lo x hi : in_range lo x hi = true <-> lo <= x <= hi.
Proof. unfold in_range. rewrite andb_true_iff, !Z.leb_le. done. Qed.

Ltac ranges :=
  repeat match goal with
    | H : _ && _ = true |- _ => apply andb_true_iff in H; destruct H
    | H : in_range _ _ _ = true |- _ => apply in_range_true in H
    end.

(** A well-formed sequence at the head of [src]: its bytes are there, all
    of them are at least [0x80], and they are the encoding of the rune. *)
Lemma DecodeRune_valid c tl :
  128 <= byte_val c ->
  invalid_rune (DecodeRune (c :: tl)) = false ->
  let d := DecodeRune (c :: tl) in
  take (snd d) (c :: tl) = encodeRune (fst d)
  /\ Forall (fun x => 128 <= byte_val x) (take (snd d) (c :: tl))
  /\ (1 <= snd d <= length (c :: tl))%nat.
Proof.
  intros Hc. unfold DecodeRune.
  pose proof (byte_val_range c) as Rc.
  replace (byte_val c <? 128) with false by (symmetry; apply Z.ltb_ge; lia).
  destruct (in_range 194 (byte_val c) 223) eqn:E1.
  { destruct tl as [|c1 tl]; [by cbn|].
    pose proof (byte_val_range c1) as R1.
    destruct (in_range 128 (byte_val c1) 191) eqn:E2; [|by cbn].
    ranges. intros _. cbn [fst snd take length].
    split; [|split; [repeat constructor; lia|lia]].
    unfold encodeRune.
    set (r := (byte_val c - 192) * 64 + (byte_val c1 - 128)).
    assert (128 <= r < 2048) by (unfold r; lia).
    replace (r <? 128) with false by (symmetry; apply Z.ltb_ge; lia).
    replace (r <? 2048) with true by (symmetry; apply Z.ltb_lt; lia).
    replace (192 + r / 64) with (byte_val c)
      by (unfold r; Z.div_mod_to_equations; lia).
    replace (128 + r mod 64) with (byte_val c1)
      by (unfold r; Z.div_mod_to_equations; lia).
    by rewrite !byte_of_val. }
  destruct (in_range 224 (byte_val c) 239) eqn:E3.
  { destruct tl as [|c1 [|c2 tl]]; [by cbn|by cbn|].
    pose proof (byte_val_range c1) as R1. pose proof (byte_val_range c2) as R2.
    destruct (in_range (if byte_val c =? 224 then 160 else 128) (byte_val c1)
                (if byte_val c =? 237 then 159 else 191)
              && in_range 128 (byte_val c2) 191) eqn:E4; [|by cbn].
    ranges. intros _. cbn [fst snd take length].
    assert (128 <= byte_val c1 <= 191)
      by (destruct (byte_val c =? 224), (byte_val c =? 237); lia).
    split; [|split; [repeat constructor; lia|lia]].
    unfold encodeRune.
    set (r := (byte_val c - 224) * 4096 + (byte_val c1 - 128) * 64
              + (byte_val c2 - 128)).
    assert (2048 <= r < 65536).
    { unfold r. destruct (Z.eqb_spec (byte_val c) 224); lia. }
    replace (r <? 128) with false by (symmetry; apply Z.ltb_ge; lia).
    replace (r <? 2048) with false by (symmetry; apply Z.ltb_ge; lia).
    replace (r <? 65536) with true by (symmetry; apply Z.ltb_lt; lia).
    replace (224 + r / 4096) with (byte_val c)
      by (unfold r; Z.div_mod_to_equations; lia).
    replace (128 + (r / 64) mod 64) with (byte_val c1)
      by (unfold r; Z.div_mod_to_equations; lia).
    replace (128 + r mod 64) with (byte_val c2)
      by (unfold r; Z.div_mod_to_equations; lia).
    by rewrite !byte_of_val. }
  destruct (in_range 240 (byte_val c) 244) eqn:E5; [|by cbn].
  destruct tl as [|c1 [|c2 [|c3 tl]]]; [by cbn|by cbn|by cbn|].
  pose proof (byte_val_range c1) as R1. pose proof (byte_val_range c2) as R2.
  pose proof (byte_val_range c3) as R3.
  destruct (in_range (if byte_val c =? 240 then 144 else 128) (byte_val c1)
              (if byte_val c =? 244 then 143 else 191)
            && in_range 128 (byte_val c2) 191
            && in_range 128 (byte_val c3) 191) eqn:E6; [|by cbn].
  ranges. intros _. cbn [fst snd take length].
  assert (128 <= byte_val c1 <= 191)
    by (destruct (byte_val c =? 240), (byte_val c =? 244); lia).
  split; [|split; [repeat constructor; lia|lia]].
  unfold encodeRune.
  set (r := (byte_val c - 240) * 262144 + (byte_val c1 - 128) * 4096
            + (byte_val c2 - 128) * 64 + (byte_val c3 - 128)).
  assert (65536 <= r).
  { unfold r. destruct (Z.eqb_spec (byte_val c) 240); lia. }
  replace (r <? 128) with false by (symmetry; apply Z.ltb_ge; lia).
  replace (r <? 2048) with false by (symmetry; apply Z.ltb_ge; lia).
  replace (r <? 65536) with false by (symmetry; apply Z.ltb_ge; lia).
  replace (240 + r / 262144) with (byte_val c)
    by (unfold r; Z.div_mod_to_equations; lia).
  replace (128 + (r / 4096) mod 64) with (byte_val c1)
    by (unfold r; Z.div_mod_to_equations; lia).
  replace (128 + (r / 64) mod 64) with (byte_val c2)
    by (unfold r; Z.div_mod_to_equations; lia).
  replace (128 + r mod 64) with (byte_val c3)
    by (unfold r; Z.div_mod_to_equations; lia).
  by rewrite !byte_of_val.
Qed.

Lemma DecodeRune_low c tl :
  (byte_val c <? 0x80) = true -> DecodeRune (c :: tl) = (byte_val c, 1%nat).
Proof. intros H. unfold DecodeRune. by rewrite H. Qed.

Lemma invalid_rune_low c : (byte_val c <? 0x80) = true ->
  invalid_rune (byte_val c, 1%nat) = false.
Proof.
  intros H. apply Z.ltb_lt in H. unfold invalid_rune. cbn [fst snd].
  replace (byte_val c =? RuneError) with false; [done|].
  symmetry. apply Z.eqb_neq. unfold RuneError. lia.
Qed.

(** Reading a written string literal gives the string, with U+FFFD for
    every byte that started no well-formed sequence. *)
Lemma read_string_appendString_loop fuel :
  forall src rest,
    (length src <= fuel)%nat ->
    read_string (appendString_loop fuel src ++ quote :: rest)
    = Some (coerce_loop fuel src, rest).
Proof.
  induction fuel as [|fuel IH]; intros src rest Hlen.
  - destruct src; [|cbn in Hlen; lia]. reflexivity.
  - destruct src as [|c tl]; [reflexivity|].
    cbn [length] in Hlen. cbn [appendString_loop coerce_loop].
    destruct (byte_val c <? 128) eqn:Hlow.
    + rewrite <- app_assoc, (read_string_escape_byte c _ Hlow).
      rewrite IH by lia.
      rewrite (DecodeRune_low c tl Hlow), (invalid_rune_low c Hlow).
      cbn [snd take drop prepend app]. reflexivity.
    + apply Z.ltb_ge in Hlow.
      destruct (invalid_rune (DecodeRune (c :: tl))) eqn:Hinv.
      * rewrite <- app_assoc, read_string_replacement. rewrite IH by lia.
        reflexivity.
      * destruct (DecodeRune_valid c tl Hlow Hinv) as (Henc & Hhigh & Hn).
        cbn zeta in *.
        set (d := DecodeRune (c :: tl)) in *.
        assert (Hrest : (length (drop (snd d) (c :: tl)) <= fuel)%nat).
        { rewrite length_drop. cbn [length]. lia. }
        destruct ((fst d =? 8232) || (fst d =? 8233)) eqn:Hsep.
        -- rewrite <- !app_assoc.
           rewrite (read_string_separator (fst d)).
           2:{ apply orb_true_iff in Hsep. destruct Hsep as [H|H];
               apply Z.eqb_eq in H; auto. }
           rewrite IH by done. cbn [prepend]. by rewrite Henc.
        -- rewrite <- app_assoc, (read_string_copy _ _ Hhigh).
           rewrite IH by done. reflexivity.
Qed.

Lemma read_string_appendString s rest :
  read_string (tail (appendString s) ++ rest) = Some (B (coerced s), rest).
Proof.
  unfold appendString, coerced. cbn [app tail].
  rewrite <- app_assoc. cbn [app].
  rewrite read_string_appendString_loop by done.
  unfold B. by rewrite list_ascii_of_string_of_list_ascii.
Qed.

Lemma coerce_loop_valid fuel :
  forall src, valid_utf8_loop fuel src = true -> coerce_loop fuel src = src.
Proof.
  induction fuel as [|fuel IH]; intros src H.
  - by destruct src.
  - destruct src as [|c tl]; [done|].
    cbn [valid_utf8_loop coerce_loop] in *.
    apply andb_true_iff in H. destruct H as [Hv Hr].
    apply negb_true_iff in Hv. rewrite Hv.
    rewrite (IH _ Hr). apply take_drop.
Qed.

Lemma coerced_valid s : ValidString s = true -> coerced s = s.
Proof.
  intros H. unfold coerced. rewrite (coerce_loop_valid _ _ H).
  apply string_of_list_ascii_of_string.
Qed.

(** ** Documents read back *)

Section json_induction.
Variable P : json -> Prop.
Hypothesis HNull : P JNull.
Hypothesis HBool : forall b, P (JBool b).
Hypothesis HNumber : forall lit, P (JNumber lit).
Hypothesis HString : forall s, P (JString s).
Hypothesis HArray : forall xs, Forall P xs -> P (JArray xs).
Hypothesis HObject : forall ms, Forall (fun kv => P kv.2) ms -> P (JObject ms).

Lemma json_nested_ind : forall j, P j.
Proof.
  exact (fix json_nested_ind (j : json) : P j :=
    match j with
    | JNull => HNull
    | JBool b => HBool b
    | JNumber lit => HNumber lit
    | JString s => HString s
    | JArray xs =>
        HArray xs
          ((fix go (l : list json) : Forall P l :=
              match l with
              | [] => @List.Forall_nil _ P
              | x :: l' => @List.Forall_cons _ P x l' (json_nested_ind x) (go l')
              end) xs)
    | JObject ms =>
        HObject ms
          ((fix go (l : list (string * json)) : Forall (fun kv => P kv.2) l :=
              match l with
              | [] => @List.Forall_nil _ _
              | kv :: l' =>
                  @List.Forall_cons _ (fun kv => P kv.2) kv l'
                    (json_nested_ind kv.2) (go l')
              end) ms)
    end).
Qed.
End json_induction.

Lemma indented_array prefix indent depth x xs :
  indented prefix indent depth (JArray (x :: xs))
  = B "[" ++ appendNewline prefix indent (S depth)
    ++ indented prefix indent (S depth) x
    ++ more_items prefix indent (S depth) xs
    ++ appendNewline prefix indent depth ++ B "]".
Proof.
  cbn [indented]. do 3 f_equal. f_equal.
  induction xs as [|y ys IH]; [done|]. cbn [more_items]. by rewrite IH.
Qed.

Lemma indented_object prefix indent depth k x ms :
  indented prefix indent depth (JObject ((k, x) :: ms))
  = B "{" ++ appendNewline prefix indent (S depth)
    ++ appendString k ++ B ": " ++ indented prefix indent (S depth) x
    ++ more_members prefix indent (S depth) ms
    ++ appendNewline prefix indent depth ++ B "}".
Proof.
  cbn [indented]. do 5 f_equal. f_equal.
  induction ms as [|[k' y] ms IH]; [done|]. cbn [more_members]. by rewrite IH.
Qed.

Lemma coerced_json_object ms :
  coerced_json (JObject ms) = JObject (map coerced_member ms).
Proof.
  cbn [coerced_json]. f_equal.
  induction ms as [|[k x] ms IH]; [done|]. cbn [map]. by rewrite IH.
Qed.

Lemma need_array xs : need (JArray xs) = S (need_items xs).
Proof.
  reflexivity.
Qed.

Lemma need_object ms : need (JObject ms) = S (need_members ms).
Proof.
  reflexivity.
Qed.

Lemma numbers_ok_object ms :
  numbers_ok (JObject ms) = forallb (fun kv => numbers_ok kv.2) ms.
Proof.
  cbn [numbers_ok]. induction ms as [|[k x] ms IH]; [done|].
  cbn [forallb snd]. by rewrite IH.
Qed.

Lemma skip_ws_app ws s :
  forallb is_ws ws = true -> skip_ws (ws ++ s) = skip_ws s.
Proof.
  induction ws as [|c ws IH]; [done|]. cbn [forallb app skip_ws].
  intros H. apply andb_true_iff in H. destruct H as [-> H]. by apply IH.
Qed.

Lemma skip_ws_head c r : is_ws c = false -> skip_ws (c :: r) = c :: r.
Proof. intros H. cbn [skip_ws]. by rewrite H. Qed.

Lemma read_value_ws fuel ws s :
  forallb is_ws ws = true -> read_value fuel (ws ++ s) = read_value fuel s.
Proof.
  intros H. destruct fuel; [done|]. cbn [read_value]. by rewrite skip_ws_app.
Qed.

Lemma read_members_ws fuel ws s :
  forallb is_ws ws = true -> read_members fuel (ws ++ s) = read_members fuel s.
Proof.
  intros H. destruct fuel; [done|]. cbn [read_members]. by rewrite skip_ws_app.
Qed.

Lemma read_elements_ws fuel ws s :
  forallb is_ws ws = true -> read_elements fuel (ws ++ s) = read_elements fuel s.
Proof.
  intros H. destruct fuel; [done|]. cbn [read_elements].
  by rewrite read_value_ws.
Qed.

Lemma numchar_dispatch c :
  is_numchar c = true ->
  is_ws c = false /\ Ascii.eqb c quote = false /\ Ascii.eqb c "[" = false
  /\ Ascii.eqb c "{" = false /\ Ascii.eqb c "n" = false
  /\ Ascii.eqb c "t" = false /\ Ascii.eqb c "f" = false
  /\ Ascii.eqb c "]" = false /\ Ascii.eqb c "}" = false.
Proof.
  destruct c as [[] [] [] [] [] [] [] []]; intros H;
    try (vm_compute in H; discriminate); repeat split; reflexivity.
Qed.

Lemma read_number_app lit rest :
  forallb is_numchar lit = true -> head_ok rest = true ->
  read_number (lit ++ rest) = (lit, rest).
Proof.
  intros Hl Hr. induction lit as [|c lit IH].
  - cbn [app]. destruct rest as [|c r]; [done|].
    cbn [read_number]. cbn [head_ok] in Hr.
    apply negb_true_iff in Hr. by rewrite Hr.
  - cbn [forallb] in Hl. apply andb_true_iff in Hl. destruct Hl as [Hc Hl].
    cbn [app read_number]. rewrite Hc, (IH Hl). reflexivity.
Qed.

Section reading_indented.
Variables prefix indent : bytes.
Hypothesis prefix_ws : forallb is_ws prefix = true.
Hypothesis indent_ws : forallb is_ws indent = true.

Lemma appendNewline_ws depth :
  forallb is_ws (appendNewline prefix indent depth) = true.
Proof.
  unfold appendNewline. cbn [B list_ascii_of_string app forallb].
  rewrite forallb_app, prefix_ws. cbn [andb].
  change (is_ws "010") with true. cbn [andb].
  induction depth as [|d IH]; [done|].
  cbn [replicate concat]. by rewrite forallb_app, indent_ws, IH.
Qed.

Lemma read_value_space fuel s :
  read_value fuel (" "%char :: s) = read_value fuel s.
Proof. by apply (read_value_ws fuel [" "%char] s). Qed.

Lemma appendNewline_head depth rest :
  head_ok (appendNewline prefix indent depth ++ rest) = true.
Proof. reflexivity. Qed.

(** The text of a value starts with a character that is neither white
    space nor a closing bracket. *)
Lemma indented_head depth j :
  numbers_ok j = true ->
  exists c r,
    indented prefix indent depth j = c :: r
    /\ is_ws c = false /\ Ascii.eqb c "]" = false /\ Ascii.eqb c "}" = false.
Proof.
  destruct j as [|[]|lit|s|[|x xs]|[|[k x] ms]]; intros H;
    try (by eexists _, _; repeat split).
  cbn [numbers_ok] in H. apply andb_true_iff in H. destruct H as [Hne Hall].
  destruct lit as [|c lit]; [done|].
  cbn [forallb] in Hall. apply andb_true_iff in Hall. destruct Hall as [Hc _].
  destruct (numchar_dispatch c Hc) as (? & ? & ? & ? & ? & ? & ? & ? & ?).
  by exists c, lit.
Qed.

Lemma read_elements_items xs :
  Forall (reads_back prefix indent) xs ->
  forall x fuel depth depth' rest,
    reads_back prefix indent x ->
    forallb numbers_ok (x :: xs) = true ->
    (need_items (x :: xs) <= fuel)%nat ->
    read_elements fuel
      (appendNewline prefix indent depth ++ indented prefix indent depth x
       ++ more_items prefix indent depth xs
       ++ appendNewline prefix indent depth' ++ B "]" ++ rest)
    = Some (coerced_json x :: map coerced_json xs, rest).
Proof.
  induction 1 as [|y ys Hy _ IH]; intros x fuel depth depth' rest Hx Hok Hfuel.
  - cbn [forallb] in Hok. apply andb_true_iff in Hok. destruct Hok as [Hokx _].
    cbn [need_items] in Hfuel. destruct fuel as [|fuel]; [lia|].
    cbn [read_elements more_items app map].
    rewrite read_value_ws by apply appendNewline_ws.
    rewrite (Hx Hokx fuel depth _) by (lia || apply appendNewline_head).
    rewrite skip_ws_app by apply appendNewline_ws.
    reflexivity.
  - cbn [forallb] in Hok. apply andb_true_iff in Hok. destruct Hok as [Hokx Hok].
    cbn [need_items] in Hfuel. destruct fuel as [|fuel]; [lia|].
    cbn [read_elements more_items map].
    rewrite read_value_ws by apply appendNewline_ws.
    rewrite <- !app_assoc.
    rewrite (Hx Hokx fuel depth _) by (lia || reflexivity).
    cbn [B list_ascii_of_string app skip_ws].
    change (is_ws ",") with false. cbn [Ascii.eqb Bool.eqb].
    specialize (IH y fuel depth depth' rest Hy Hok).
    cbn [B list_ascii_of_string app] in IH.
    rewrite IH by (cbn [need_items]; lia).
    reflexivity.
Qed.

Lemma read_members_members ms :
  Forall (fun kv => reads_back prefix indent kv.2) ms ->
  forall k x fuel depth depth' rest,
    reads_back prefix indent x ->
    forallb (fun kv => numbers_ok kv.2) ((k, x) :: ms) = true ->
    (need_members ((k, x) :: ms) <= fuel)%nat ->
    read_members fuel
      (appendNewline prefix indent depth ++ appendString k ++ B ": "
       ++ indented prefix indent depth x
       ++ more_members prefix indent depth ms
       ++ appendNewline prefix indent depth' ++ B "}" ++ rest)
    = Some (map coerced_member ((k, x) :: ms), rest).
Proof.
  induction 1 as [|[k' y] ms Hy _ IH];
    intros k x fuel depth depth' rest Hx Hok Hfuel.
  - cbn [forallb snd] in Hok. apply andb_true_iff in Hok.
    destruct Hok as [Hokx _].
    cbn [need_members] in Hfuel. destruct fuel as [|fuel]; [lia|].
    rewrite read_members_ws by apply appendNewline_ws.
    cbn [read_members more_members app map].
    change (appendString k) with (quote :: tail (appendString k)).
    cbn [app skip_ws]. change (is_ws quote) with false. cbn iota.
    change (Ascii.eqb quote quote) with true. cbn iota.
    rewrite read_string_appendString.
    cbn [B list_ascii_of_string app skip_ws].
    change (is_ws ":") with false. cbn iota.
    change (Ascii.eqb ":" ":") with true. cbn iota.
    rewrite read_value_space.
    rewrite (Hx Hokx fuel depth _) by (lia || apply appendNewline_head).
    rewrite skip_ws_app by apply appendNewline_ws.
    cbn [skip_ws]. change (is_ws "}") with false. cbn iota.
    change (Ascii.eqb "}" ",") with false.
    change (Ascii.eqb "}" "}") with true. cbn iota.
    unfold coerced_member. cbn [fst snd].
    unfold B. by rewrite string_of_list_ascii_of_string.
  - cbn [forallb snd] in Hok. apply andb_true_iff in Hok.
    destruct Hok as [Hokx Hok].
    cbn [need_members] in Hfuel. destruct fuel as [|fuel]; [lia|].
    rewrite read_members_ws by apply appendNewline_ws.
    cbn [read_members more_members map].
    change (appendString k) with (quote :: tail (appendString k)).
    cbn [app skip_ws]. change (is_ws quote) with false. cbn iota.
    change (Ascii.eqb quote quote) with true. cbn iota.
    rewrite read_string_appendString.
    cbn [B list_ascii_of_string app skip_ws].
    change (is_ws ":") with false. cbn iota.
    change (Ascii.eqb ":" ":") with true. cbn iota.
    rewrite read_value_space.
    rewrite <- !app_assoc.
    rewrite (Hx Hokx fuel depth _) by (lia || reflexivity).
    cbn [B list_ascii_of_string app skip_ws].
    change (is_ws ",") with false. cbn iota.
    change (Ascii.eqb "," ",") with true. cbn iota.
    specialize (IH k' y fuel depth depth' rest Hy Hok).
    cbn [B list_ascii_of_string app] in IH. rewrite <- !app_assoc.
    rewrite IH by (cbn [need_members]; lia).
    unfold coerced_member at 2. cbn [fst snd].
    unfold B. by rewrite string_of_list_ascii_of_string.
Qed.
End reading_indented.

Lemma literal_here word v rest :
  literal word v (B word ++ rest) = Some (v, rest).
Proof.
  unfold literal. rewrite take_app_length, drop_app_length.
  by rewrite bool_decide_eq_true_2.
Qed.

(** Reading the indented text of a document gives the document back. *)
Lemma indented_reads_back prefix indent :
  forallb is_ws prefix = true -> forallb is_ws indent = true ->
  forall j, reads_back prefix indent j.
Proof.
  intros Hp Hi. induction j using json_nested_ind;
    intros Hok fuel depth rest Hfuel Hrest;
    (destruct fuel as [|fuel]; [cbn in Hfuel; lia|]).
  - apply (literal_here "null").
  - destruct b; [apply (literal_here "true")|apply (literal_here "false")].
  - cbn [numbers_ok] in Hok. apply andb_true_iff in Hok. destruct Hok as [Hne Hall].
    destruct lit as [|c lit]; [done|].
    pose proof Hall as Hall'. cbn [forallb] in Hall'.
    apply andb_true_iff in Hall'. destruct Hall' as [Hc _].
    destruct (numchar_dispatch c Hc) as (W & Q & A & O & N & T & F & _).
    cbn [indented app read_value].
    rewrite (skip_ws_head c _ W), Q, A, O, N, T, F, Hc.
    change (c :: lit ++ rest) with ((c :: lit) ++ rest).
    by rewrite (read_number_app _ _ Hall Hrest).
  - cbn [indented read_value].
    change (appendString s) with (quote :: tail (appendString s)).
    cbn [app skip_ws]. change (is_ws quote) with false. cbn iota.
    change (Ascii.eqb quote quote) with true. cbn iota.
    rewrite read_string_appendString.
    unfold B. by rewrite string_of_list_ascii_of_string.
  - destruct xs as [|x xs]; [reflexivity|].
    rewrite need_array in Hfuel. cbn [numbers_ok] in Hok.
    inversion H as [|? ? Hx Hxs]; subst.
    rewrite indented_array. rewrite <- !app_assoc.
    cbn [B list_ascii_of_string app read_value skip_ws].
    change (is_ws "[") with false. cbn iota.
    change (Ascii.eqb "[" quote) with false.
    change (Ascii.eqb "[" "[") with true. cbn iota.
    rewrite skip_ws_app by (by apply appendNewline_ws).
    pose proof Hok as Hok'. cbn [forallb] in Hok'.
    apply andb_true_iff in Hok'. destruct Hok' as [Hokx _].
    destruct (indented_head prefix indent (S depth) x Hokx)
      as (c & r & Hcr & W & Cb & _).
    set (X := more_items prefix indent (S depth) xs ++ _).
    assert (E : indented prefix indent (S depth) x ++ X = c :: (r ++ X))
      by (by rewrite Hcr).
    rewrite E, (skip_ws_head c _ W), Cb. rewrite <- E. subst X.
    pose proof (read_elements_items prefix indent Hp Hi xs Hxs x fuel
                  (S depth) depth rest Hx Hok) as HE.
    cbn [B list_ascii_of_string app] in HE.
    rewrite HE by lia. reflexivity.
  - destruct ms as [|[k x] ms]; [reflexivity|].
    rewrite need_object in Hfuel. rewrite numbers_ok_object in Hok.
    inversion H as [|? ? Hx Hms]; subst. cbn [snd] in Hx.
    rewrite indented_object, coerced_json_object. rewrite <- !app_assoc.
    cbn [B list_ascii_of_string app read_value skip_ws].
    change (is_ws "{") with false. cbn iota.
    change (Ascii.eqb "{" quote) with false.
    change (Ascii.eqb "{" "[") with false.
    change (Ascii.eqb "{" "{") with true. cbn iota.
    rewrite skip_ws_app by (by apply appendNewline_ws).
    change (appendString k) with (quote :: tail (appendString k)).
    cbn [app skip_ws]. change (is_ws quote) with false. cbn iota.
    change (Ascii.eqb quote "}") with false. cbn iota.
    change (quote :: tail (appendString k) ++ ?X)
      with (appendString k ++ X).
    pose proof (read_members_members prefix indent Hp Hi ms Hms k x fuel
                  (S depth) depth rest Hx Hok) as HE.
    cbn [B list_ascii_of_string app] in HE.
    rewrite HE by lia. reflexivity.
Qed.

(** ** Numbers are written as numbers *)

Lemma digit_is_digit d : is_digit (digit d) = true.
Proof.
  unfold digit, is_digit. pose proof (Z.mod_pos_bound d 10 ltac:(lia)) as H.
  rewrite byte_val_of by lia. apply in_range_true. lia.
Qed.

Lemma digit_is_numchar d : is_numchar (digit d) = true.
Proof. unfold is_numchar. by rewrite digit_is_digit. Qed.

Lemma dec_length w n : length (dec w n) = w.
Proof.
  revert n. induction w as [|w IH]; intros n; [done|].
  cbn [dec]. rewrite length_app, IH. cbn. lia.
Qed.

Lemma dec_digits w n : forallb is_digit (dec w n) = true.
Proof.
  revert n. induction w as [|w IH]; intros n; [done|].
  cbn [dec]. rewrite forallb_app, IH. cbn. by rewrite digit_is_digit.
Qed.

Lemma forallb_digit_numchar l :
  forallb is_digit l = true -> forallb is_numchar l = true.
Proof.
  induction l as [|c l IH]; [done|]. cbn [forallb]. intros H.
  apply andb_true_iff in H. destruct H as [Hc Hl].
  rewrite (IH Hl), andb_true_r. unfold is_numchar. by rewrite Hc.
Qed.

Lemma ndigits_loop_pos fuel n : (1 <= ndigits_loop fuel n)%nat.
Proof. destruct fuel; cbn; [lia|]. destruct (n <? 10); lia. Qed.

Lemma numeral_ok l : numeral l -> numbers_ok (JNumber l) = true.
Proof.
  intros [Hne Hall]. cbn [numbers_ok]. rewrite Hall.
  by rewrite bool_decide_eq_false_2.
Qed.

Lemma numeral_utoa n : numeral (utoa n).
Proof.
  unfold utoa. split.
  - intros H. apply (f_equal length) in H. rewrite dec_length in H.
    pose proof (ndigits_loop_pos (Z.to_nat (Z.log2 n)) n). unfold ndigits in H.
    cbn in H. lia.
  - apply forallb_digit_numchar, dec_digits.
Qed.

Lemma numeral_cons c l :
  is_numchar c = true -> forallb is_numchar l = true -> numeral (c :: l).
Proof. intros Hc Hl. split; [done|]. cbn [forallb]. by rewrite Hc, Hl. Qed.

Lemma numeral_itoa n : numeral (itoa n).
Proof.
  unfold itoa. destruct (n <? 0); [|apply numeral_utoa].
  apply numeral_cons; [reflexivity|apply numeral_utoa].
Qed.

Lemma forallb_map_digit l : forallb is_numchar (map digit l) = true.
Proof.
  induction l as [|d l IH]; [done|]. cbn [map forallb].
  by rewrite digit_is_numchar, IH.
Qed.

Lemma forallb_replicate_zero k :
  forallb is_numchar (replicate k "0"%char) = true.
Proof. induction k as [|k IH]; [done|]. cbn [replicate forallb]. by rewrite IH. Qed.

Lemma forallb_sign (neg : bool) :
  forallb is_numchar (if neg then B "-" else []) = true.
Proof. by destruct neg. Qed.

Lemma numeral_app_l l1 l2 :
  forallb is_numchar l1 = true -> numeral l2 -> numeral (l1 ++ l2).
Proof.
  intros H1 [Hne H2]. split.
  - destruct l1, l2; done.
  - by rewrite forallb_app, H1, H2.
Qed.

Lemma numeral_app_r l1 l2 :
  numeral l1 -> forallb is_numchar l2 = true -> numeral (l1 ++ l2).
Proof.
  intros [Hne H1] H2. split.
  - destruct l1; done.
  - by rewrite forallb_app, H1, H2.
Qed.

Lemma numeral_fmtF neg d dp : numeral (fmtF neg d dp).
Proof.
  unfold fmtF. apply numeral_app_l; [apply forallb_sign|].
  apply numeral_app_r.
  - destruct (0 <? dp) eqn:Hdp; [|by split].
    split.
    + intros H. apply (f_equal length) in H.
      rewrite length_app, length_map, length_take, length_replicate in H.
      cbn [length] in H. apply Z.ltb_lt in Hdp. lia.
    + by rewrite forallb_app, forallb_map_digit, forallb_replicate_zero.
  - destruct (0 <? Z.of_nat (length d) - dp); [|done].
    cbn [B list_ascii_of_string app forallb].
    by rewrite forallb_app, forallb_replicate_zero, forallb_map_digit.
Qed.

Lemma numeral_fmtE neg d dp : numeral (fmtE neg d dp).
Proof.
  unfold fmtE. apply numeral_app_l; [apply forallb_sign|].
  apply numeral_app_r.
  - destruct d as [|d0 ds]; [by split|].
    apply numeral_cons; [apply digit_is_numchar|].
    destruct ds; [done|]. cbn [B list_ascii_of_string app forallb].
    by rewrite forallb_map_digit.
  - cbn [B list_ascii_of_string app forallb].
    rewrite !forallb_app.
    destruct (numeral_utoa (Z.abs (match d with [] => 0 | _ :: _ => dp - 1 end)))
      as [_ ->].
    by destruct (_ <? 0), (_ <? 10).
Qed.

Lemma forallb_rev {A} (f : A -> bool) l : forallb f (rev l) = forallb f l.
Proof.
  induction l as [|x l IH]; [done|]. cbn [rev forallb].
  rewrite forallb_app, IH. cbn. by rewrite andb_true_r, andb_comm.
Qed.

Lemma numeral_clean_exponent b : numeral b -> numeral (clean_exponent b).
Proof.
  intros Hb. unfold clean_exponent.
  destruct (rev b) as [|c [|z [|m [|e r]]]] eqn:Hrev; try done.
  destruct (Ascii.eqb z "0" && Ascii.eqb m "-" && Ascii.eqb e "e"); [|done].
  destruct Hb as [_ Hall]. rewrite <- forallb_rev, Hrev in Hall.
  cbn [forallb] in Hall.
  apply andb_true_iff in Hall. destruct Hall as [Hc Hall].
  apply andb_true_iff in Hall. destruct Hall as [_ Hall].
  split.
  - cbn [rev]. intros H. apply (f_equal length) in H.
    rewrite !length_app in H. cbn in H. lia.
  - rewrite forallb_rev. cbn [forallb]. by rewrite Hc, Hall.
Qed.

Lemma numeral_encodeFloat f b : encodeFloat f = Ok b -> numeral b.
Proof.
  destruct f as [|[]|neg d dp]; cbn [encodeFloat]; try done.
  destruct d as [|d0 ds].
  - intros [= <-]. apply numeral_fmtF.
  - destruct ((dp <? -5) || (21 <? dp)); intros [= <-].
    + apply numeral_clean_exponent, numeral_fmtE.
    + apply numeral_fmtF.
Qed.

Lemma rmap_Ok {A C} (f : A -> result C) (P : C -> Prop) l ys :
  (forall x y, f x = Ok y -> P y) -> rmap f l = Ok ys -> Forall P ys.
Proof.
  intros Hf. revert ys. induction l as [|x l IH]; intros ys; cbn [rmap].
  - intros [= <-]. constructor.
  - destruct (f x) as [y|] eqn:Hy; cbn [rbind]; [|done].
    destruct (rmap f l) as [ys'|]; cbn [rbind]; [|done].
    intros [= <-]. constructor; eauto.
Qed.

Lemma forallb_Forall_true {A} (f : A -> bool) l :
  Forall (fun x => f x = true) l -> forallb f l = true.
Proof. induction 1 as [|x l Hx _ IH]; [done|]. cbn. by rewrite Hx, IH. Qed.

Lemma numbers_ok_encodeInterface v j :
  encodeInterface v = Ok j -> numbers_ok j = true.
Proof.
  destruct v as [|b|i|f|s|l|l|l|l]; cbn [encodeInterface].
  - by intros [= <-].
  - by intros [= <-].
  - intros [= <-]. apply numeral_ok, numeral_itoa.
  - unfold number_of_float. destruct (encodeFloat f) as [b|] eqn:Hf; [|done].
    intros [= <-]. apply numeral_ok. by apply (numeral_encodeFloat f).
  - by intros [= <-].
  - intros [= <-]. cbn [numbers_ok]. by induction l.
  - intros [= <-]. cbn [numbers_ok]. induction l as [|i l IH]; [done|].
    cbn [map forallb]. by rewrite IH, (numeral_ok _ (numeral_itoa i)).
  - destruct (rmap number_of_float l) as [js|] eqn:Hl; cbn [rbind]; [|done].
    intros [= <-]. cbn [numbers_ok]. apply forallb_Forall_true.
    apply (rmap_Ok number_of_float _ l js); [|done].
    intros f y. unfold number_of_float.
    destruct (encodeFloat f) as [b|] eqn:Hf; [|done].
    intros [= <-]. apply numeral_ok. by apply (numeral_encodeFloat f).
  - intros [= <-]. cbn [numbers_ok]. by induction l.
Qed.

Lemma numbers_ok_encodeKeyValue kv j :
  encodeKeyValue kv = Ok j -> numbers_ok j = true.
Proof.
  unfold encodeKeyValue, Value_MarshalJSON.
  destruct (encodeInterface (KeyValue_Value kv)) as [jv|] eqn:Hv; [|done].
  cbn [rbind]. intros [= <-].
  cbn [numbers_ok]. by rewrite (numbers_ok_encodeInterface _ _ Hv).
Qed.

Lemma numbers_ok_encodeAny v j : encodeAny v = Ok j -> numbers_ok j = true.
Proof.
  destruct v as [s|t|[kvs|]]; cbn [encodeAny].
  - by intros [= <-].
  - unfold encodeTime. destruct (strictRFC3339_error _); [done|].
    by intros [= <-].
  - destruct (rmap encodeKeyValue kvs) as [js|] eqn:Hl; cbn [rbind]; [|done].
    intros [= <-]. cbn [numbers_ok]. apply forallb_Forall_true.
    apply (rmap_Ok encodeKeyValue _ kvs js); [|done].
    apply numbers_ok_encodeKeyValue.
  - by intros [= <-].
Qed.

Lemma numbers_ok_span_object span j :
  span_object span = Ok j -> numbers_ok j = true.
Proof.
  unfold span_object.
  destruct (encodeAny (any_KeyValues (Attributes span))) as [a|] eqn:Ha; [|done].
  destruct (encodeTime (EndTime span)) as [e|] eqn:He; [|done].
  destruct (encodeTime (StartTime span)) as [s|] eqn:Hs; [|done].
  cbn [rbind]. intros [= <-]. cbn [numbers_ok].
  rewrite (numbers_ok_encodeAny _ _ Ha).
  rewrite (numbers_ok_encodeAny (any_Time (EndTime span)) _ He).
  by rewrite (numbers_ok_encodeAny (any_Time (StartTime span)) _ Hs).
Qed.

(** The rounds needed are no more than the bytes of the text. *)
Lemma need_le_length prefix indent :
  forall j depth,
    numbers_ok j = true ->
    (need j <= length (indented prefix indent depth j))%nat.
Proof.
  induction j using json_nested_ind; intros depth Hok.
  - cbn. lia.
  - destruct b; cbn; lia.
  - cbn [numbers_ok] in Hok. apply andb_true_iff in Hok. destruct Hok as [Hne _].
    destruct lit; [done|]. cbn. lia.
  - cbn [need indented]. unfold appendString. rewrite !length_app. cbn. lia.
  - destruct xs as [|x xs]; [cbn; lia|].
    rewrite need_array, indented_array. rewrite !length_app.
    cbn [numbers_ok] in Hok. inversion H as [|? ? Hx Hxs]; subst.
    cbn [forallb] in Hok. apply andb_true_iff in Hok. destruct Hok as [Hokx Hok].
    specialize (Hx (S depth) Hokx).
    assert (Hmore : (need_items xs
                     <= length (more_items prefix indent (S depth) xs))%nat).
    { clear Hx Hokx H. induction Hxs as [|y ys Hy _ IH]; [cbn; lia|].
      cbn [forallb] in Hok. apply andb_true_iff in Hok.
      destruct Hok as [Hoky Hok]. specialize (Hy (S depth) Hoky).
      specialize (IH Hok). cbn [need_items more_items].
      rewrite !length_app. cbn [B list_ascii_of_string length]. lia. }
    cbn [need_items B list_ascii_of_string length]. lia.
  - destruct ms as [|[k x] ms]; [cbn; lia|].
    rewrite need_object, indented_object. rewrite !length_app.
    rewrite numbers_ok_object in Hok. inversion H as [|? ? Hx Hms]; subst.
    cbn [forallb snd] in Hok, Hx. apply andb_true_iff in Hok.
    destruct Hok as [Hokx Hok]. specialize (Hx (S depth) Hokx).
    assert (Hmore : (need_members ms
                     <= length (more_members prefix indent (S depth) ms))%nat).
    { clear Hx Hokx H. induction Hms as [|[k' y] ms' Hy _ IH]; [cbn; lia|].
      cbn [forallb snd] in Hok, Hy. apply andb_true_iff in Hok.
      destruct Hok as [Hoky Hok]. specialize (Hy (S depth) Hoky).
      specialize (IH Hok). cbn [need_members more_members].
      rewrite !length_app. cbn [B list_ascii_of_string length]. lia. }
    cbn [need_members B list_ascii_of_string length]. lia.
Qed.

(** A document written by [MarshalIndent] and read back. *)
Lemma read_json_indented j :
  numbers_ok j = true ->
  read_json (indented [] (B "  ") 0 j) = Some (coerced_json j).
Proof.
  intros Hok. unfold read_json.
  pose proof (indented_reads_back [] (B "  ") eq_refl eq_refl j Hok
                (length (indented [] (B "  ") 0 j)) 0%nat []) as H.
  rewrite app_nil_r in H. rewrite H; [done| |done].
  by apply need_le_length.
Qed.

(** ** Decimal numerals read back *)

Lemma byte_val_digit d : byte_val (digit d) = 48 + d mod 10.
Proof.
  unfold digit. pose proof (Z.mod_pos_bound d 10 ltac:(lia)).
  apply byte_val_of. lia.
Qed.

Lemma digitval_digit d : digitval (digit d) = Some (d mod 10).
Proof.
  unfold digitval. rewrite digit_is_digit, byte_val_digit. f_equal. lia.
Qed.

Lemma read_dec_app l c acc :
  read_dec (l ++ [c]) acc
  = match read_dec l acc, digitval c with
    | Some a, Some d => Some (10 * a + d)
    | _, _ => None
    end.
Proof.
  revert acc. induction l as [|x l IH]; intros acc; cbn [app read_dec].
  - by destruct (digitval c).
  - destruct (digitval x); [apply IH|done].
Qed.

Lemma read_dec_dec w :
  forall n acc,
    read_dec (dec w n) acc = Some (acc * 10 ^ Z.of_nat w + n mod 10 ^ Z.of_nat w).
Proof.
  induction w as [|w IH]; intros n acc.
  - cbn [dec read_dec]. f_equal. change (10 ^ Z.of_nat 0) with 1.
    rewrite Z.mod_1_r. lia.
  - cbn [dec]. rewrite read_dec_app, IH, digitval_digit. f_equal.
    rewrite Nat2Z.inj_succ, Z.pow_succ_r by lia.
    pose proof (Z.pow_pos_nonneg 10 (Z.of_nat w) ltac:(lia) ltac:(lia)) as Hpos.
    rewrite (Z.rem_mul_r n 10 (10 ^ Z.of_nat w)) by lia. lia.
Qed.

Lemma read_dec_small w n :
  0 <= n < 10 ^ Z.of_nat w -> read_dec (dec w n) 0 = Some n.
Proof. intros H. rewrite read_dec_dec. f_equal. rewrite Z.mod_small; lia. Qed.

Lemma ndigits_loop_upper fuel :
  forall n w, 0 <= n < 10 ^ Z.of_nat (S w) -> (ndigits_loop fuel n <= S w)%nat.
Proof.
  induction fuel as [|fuel IH]; intros n w H; cbn [ndigits_loop]; [lia|].
  destruct (Z.ltb_spec n 10) as [|Hge]; [lia|].
  destruct w as [|w]; [cbn in H; lia|].
  apply le_n_S, IH.
  rewrite Nat2Z.inj_succ, Z.pow_succ_r in H by lia.
  split; [apply Z.div_pos; lia|]. apply Z.div_lt_upper_bound; lia.
Qed.

Lemma ndigits_loop_lower w :
  forall fuel n,
    10 ^ Z.of_nat w <= n -> (w <= fuel)%nat -> (S w <= ndigits_loop fuel n)%nat.
Proof.
  induction w as [|w IH]; intros fuel n H Hf.
  - apply ndigits_loop_pos.
  - destruct fuel as [|fuel]; [lia|]. cbn [ndigits_loop].
    rewrite Nat2Z.inj_succ, Z.pow_succ_r in H by lia.
    pose proof (Z.pow_pos_nonneg 10 (Z.of_nat w) ltac:(lia) ltac:(lia)) as Hpos.
    destruct (Z.ltb_spec n 10) as [|Hge]; [lia|].
    apply le_n_S, IH; [|lia].
    apply Z.div_le_lower_bound; lia.
Qed.

Lemma ndigits_upper n w : 0 <= n < 10 ^ Z.of_nat (S w) -> (ndigits n <= S w)%nat.
Proof. apply ndigits_loop_upper. Qed.

Lemma ndigits_lower n w : 10 ^ Z.of_nat w <= n -> (S w <= ndigits n)%nat.
Proof.
  intros H. apply ndigits_loop_lower; [done|].
  pose proof (Z.pow_pos_nonneg 10 (Z.of_nat w) ltac:(lia) ltac:(lia)) as Hpos.
  assert (Z.of_nat w <= Z.log2 n); [|lia].
  rewrite <- (Z.log2_pow2 (Z.of_nat w)) by lia.
  apply Z.log2_le_mono. etransitivity; [|exact H].
  apply Z.pow_le_mono_l. lia.
Qed.

Lemma appendInt_small x w :
  0 <= x < 10 ^ Z.of_nat (S w) -> appendInt x (S w) = dec (S w) x.
Proof.
  intros H. unfold appendInt.
  replace (x <? 0) with false by (symmetry; apply Z.ltb_ge; lia).
  rewrite Z.abs_eq by lia. cbn [app].
  pose proof (ndigits_upper x w H). pose proof (ndigits_loop_pos (Z.to_nat (Z.log2 x)) x).
  by rewrite Nat.max_l by lia.
Qed.

Lemma dec_lookup_digit w n i c : dec w n !! i = Some c -> is_digit c = true.
Proof.
  intros H. pose proof (dec_digits w n) as Hall.
  rewrite forallb_forall in Hall. apply Hall.
  apply list_elem_of_In. by eapply list_elem_of_lookup_2.
Qed.

(** ** Timestamps read back *)

Lemma read_digits_app l rest :
  forallb is_digit l = true ->
  match rest with [] => True | c :: _ => is_digit c = false end ->
  read_digits (l ++ rest) = (l, rest).
Proof.
  intros Hl Hr. induction l as [|c l IH].
  - cbn [app]. destruct rest as [|c r]; [done|]. cbn [read_digits]. by rewrite Hr.
  - cbn [forallb] in Hl. apply andb_true_iff in Hl. destruct Hl as [Hc Hl].
    cbn [app read_digits]. by rewrite Hc, (IH Hl).
Qed.

Lemma trim_zeros_rev_spec r :
  exists j, r = replicate j "0"%char ++ trim_zeros_rev r.
Proof.
  induction r as [|c r [j IH]]; [by exists 0%nat|].
  cbn [trim_zeros_rev]. destruct (Ascii.eqb_spec c "0") as [->|_].
  - exists (S j). cbn [replicate app]. by rewrite <- IH.
  - by exists 0%nat.
Qed.

Lemma rev_replicate_same {A} (x : A) j : rev (replicate j x) = replicate j x.
Proof.
  induction j as [|j IH]; [done|]. cbn [replicate rev]. rewrite IH.
  clear IH. induction j as [|j IH]; [done|]. cbn [replicate app]. by rewrite IH.
Qed.

Lemma read_dec_zeros j :
  forall l acc,
    read_dec (l ++ replicate j "0"%char) acc
    = match read_dec l acc with
      | Some a => Some (a * 10 ^ Z.of_nat j)
      | None => None
      end.
Proof.
  induction j as [|j IH]; intros l acc.
  - cbn [replicate]. rewrite app_nil_r. destruct (read_dec l acc); [|done].
    f_equal. change (10 ^ Z.of_nat 0) with 1. lia.
  - replace (replicate (S j) "0"%char) with (["0"%char] ++ replicate j "0"%char)
      by done.
    rewrite app_assoc, IH, read_dec_app.
    destruct (read_dec l acc) as [a|]; [|done].
    change (digitval "0") with (Some 0). f_equal.
    rewrite Nat2Z.inj_succ, Z.pow_succ_r by lia. lia.
Qed.

Lemma read_dec_digits l :
  forallb is_digit l = true -> forall acc, exists a, read_dec l acc = Some a.
Proof.
  induction l as [|c l IH]; intros Hl acc; [by eexists|].
  cbn [forallb] in Hl. apply andb_true_iff in Hl. destruct Hl as [Hc Hl].
  cbn [read_dec]. unfold digitval. rewrite Hc. apply (IH Hl).
Qed.

(** The fraction [appendNano] writes is read back as the nanoseconds. *)
Lemma read_fraction_appendNano ns zone :
  0 <= ns <= 999999999 ->
  match zone with
  | [] => False
  | c :: _ => is_digit c = false /\ Ascii.eqb c "." = false
  end ->
  read_fraction (appendNano ns ++ zone) = Some (ns, zone).
Proof.
  intros Hns Hz. unfold appendNano.
  destruct (Z.eqb_spec ns 0) as [->|Hne].
  { cbn [app]. destruct zone as [|c r]; [done|]. destruct Hz as [_ Hdot].
    cbn [read_fraction]. by rewrite Hdot. }
  rewrite (appendInt_small ns 8) by (change (10 ^ Z.of_nat 9) with 1000000000; lia).
  set (D := dec 9 ns).
  destruct (trim_zeros_rev_spec (rev D)) as [j Hj].
  set (T := rev (trim_zeros_rev (rev D))) in *.
  assert (HD : D = T ++ replicate j "0"%char).
  { rewrite <- (rev_involutive D), Hj, rev_app_distr. unfold T.
    by rewrite rev_replicate_same. }
  assert (HTd : forallb is_digit T = true).
  { pose proof (dec_digits 9 ns) as H. fold D in H. rewrite HD, forallb_app in H.
    by apply andb_true_iff in H as [? _]. }
  assert (Hlen : (length T + j = 9)%nat).
  { pose proof (dec_length 9 ns) as H. fold D in H.
    by rewrite HD, length_app, length_replicate in H. }
  destruct (read_dec_digits T HTd 0) as [m Hm].
  assert (Hval : m * 10 ^ Z.of_nat j = ns).
  { pose proof (read_dec_small 9 ns) as H. fold D in H.
    rewrite HD, read_dec_zeros, Hm in H.
    assert (Some (m * 10 ^ Z.of_nat j) = Some ns) as [= ?]; [|done].
    apply H. change (10 ^ Z.of_nat 9) with 1000000000. lia. }
  assert (HT : T <> []).
  { intros E. rewrite E in Hm. cbn in Hm. inversion Hm; subst m. lia. }
  cbn [B list_ascii_of_string app read_fraction].
  change (Ascii.eqb "." ".") with true. cbn iota.
  rewrite read_digits_app; [|done|by destruct zone as [|c r]; [|destruct Hz]].
  replace ((1 <=? length T)%nat) with true
    by (symmetry; apply Nat.leb_le; destruct T; [done|cbn; lia]).
  replace ((length T <=? 9)%nat) with true by (symmetry; apply Nat.leb_le; lia).
  cbn [andb]. rewrite Hm.
  replace (9 - length T)%nat with j by lia. by rewrite Hval.
Qed.

Lemma dec_2 n : dec 2 n = [digit (n / 10); digit n].
Proof. reflexivity. Qed.

Lemma two_digits n : 0 <= n < 100 -> 10 * ((n / 10) mod 10) + n mod 10 = n.
Proof. intros H. Z.div_mod_to_equations. lia. Qed.

Lemma read_dec_2 n acc :
  read_dec [digit (n / 10); digit n] acc
  = Some (10 * (10 * acc + (n / 10) mod 10) + n mod 10).
Proof. cbn [read_dec]. by rewrite !digitval_digit. Qed.

Lemma zone_minutes_range offset : 0 <= zone_minutes offset < 60.
Proof. unfold zone_minutes. apply Z.mod_pos_bound. lia. Qed.

Lemma zone_hours_nonneg offset : 0 <= zone_hours offset.
Proof. unfold zone_hours. apply Z.div_pos; lia. Qed.

(** A zone of whole minutes below 24 hours is read back. *)
Lemma read_zone_appendZone offset :
  offset mod 60 = 0 ->
  offset = 0 \/ zone_hours offset <= 23 ->
  read_zone (appendZone offset) = Some offset.
Proof.
  intros Hmin Hh. unfold appendZone.
  destruct (Z.eqb_spec offset 0) as [->|Hne]; [reflexivity|].
  destruct Hh as [|Hh]; [done|]. cbn zeta.
  fold (zone_hours offset) (zone_minutes offset).
  pose proof (zone_minutes_range offset) as Hm.
  pose proof (zone_hours_nonneg offset) as Hh0.
  rewrite (appendInt_small (zone_hours offset) 1)
    by (change (10 ^ Z.of_nat 2) with 100; lia).
  rewrite (appendInt_small (zone_minutes offset) 1)
    by (change (10 ^ Z.of_nat 2) with 100; lia).
  rewrite !dec_2.
  assert (Hq : offset = 60 * Z.quot offset 60).
  { pose proof (Z.quot_rem' offset 60) as H.
    assert (Z.rem offset 60 = 0); [|lia].
    apply Z.rem_divide; [lia|]. apply Z.mod_divide; [lia|done]. }
  assert (Hz : Z.abs (Z.quot offset 60)
               = 60 * zone_hours offset + zone_minutes offset).
  { unfold zone_hours, zone_minutes. apply Z.div_mod. lia. }
  destruct (Z.ltb_spec (Z.quot offset 60) 0) as [Hneg|Hpos];
    cbn [B list_ascii_of_string app read_zone];
    rewrite !read_dec_2, !Z.mul_0_r, !Z.add_0_l,
      (two_digits (zone_hours offset)), (two_digits (zone_minutes offset)) by lia;
    change (Ascii.eqb ":" ":") with true;
    replace (zone_hours offset <=? 23) with true by (symmetry; apply Z.leb_le; lia);
    replace (zone_minutes offset <=? 59) with true by (symmetry; apply Z.leb_le; lia);
    cbn [andb].
  - change (Ascii.eqb "-" "+") with false.
    change (Ascii.eqb "-" "-") with true. cbn iota. f_equal.
    generalize dependent (Z.quot offset 60). intros q Hq Hz Hneg. lia.
  - change (Ascii.eqb "+" "+") with true. cbn iota. f_equal.
    generalize dependent (Z.quot offset 60). intros q Hq Hz Hpos. lia.
Qed.

Lemma appendZone_head offset :
  match appendZone offset with
  | [] => False
  | c :: _ => is_digit c = false /\ Ascii.eqb c "." = false
  end.
Proof.
  unfold appendZone. destruct (offset =? 0); [done|]. cbn zeta.
  by destruct (_ <? 0).
Qed.

(** What passing the checks of [appendStrictRFC3339] says about the
    text. *)
Lemma strictRFC3339_passes b :
  strictRFC3339_error b = None ->
  b !! 4%nat = Some "-"%char
  /\ (last b = Some "Z"%char
      \/ exists c h1 h0 x1 x2 x3,
           drop (length b - 6) b = [c; h1; h0; x1; x2; x3]
           /\ in_range 48 (byte_val c) 57 = false
           /\ 10 * (byte_val h1 - 48) + (byte_val h0 - 48) < 24).
Proof.
  unfold strictRFC3339_error.
  destruct (bool_decide (b !! 4%nat = Some "-"%char)) eqn:H4; [|done].
  apply bool_decide_eq_true in H4. cbn [negb]. intros H. split; [done|].
  destruct (bool_decide (last b = Some "Z"%char)) eqn:HZ.
  { left. by apply bool_decide_eq_true in HZ. }
  right.
  destruct (drop (length b - 6) b) as [|c [|h1 [|h0 [|x1 [|x2 [|x3 [|? ?]]]]]]];
    try done.
  exists c, h1, h0, x1, x2, x3. split; [done|].
  destruct (in_range 48 (byte_val c) 57); [done|].
  destruct (Z.leb_spec 24 (10 * (byte_val h1 - 48) + (byte_val h0 - 48)));
    [done|]. done.
Qed.

(** A year that passes the check has four digits. *)
Lemma year_passes y X :
  (appendInt y 4 ++ B "-" ++ X) !! 4%nat = Some "-"%char -> 0 <= y <= 9999.
Proof.
  unfold appendInt. intros H.
  assert (Hd : forall k n Y, (5 <= k)%nat ->
               (dec k n ++ Y) !! 4%nat <> Some "-"%char).
  { intros k n Y Hk E. rewrite lookup_app_l in E by (rewrite dec_length; lia).
    by apply dec_lookup_digit in E. }
  destruct (Z.ltb_spec y 0) as [Hneg|Hpos].
  - exfalso. cbn [B list_ascii_of_string app] in H.
    change ((?c :: ?l) !! 4%nat) with (l !! 3%nat) in H.
    rewrite lookup_app_l in H by (rewrite dec_length; lia).
    by apply dec_lookup_digit in H.
  - split; [done|]. cbn [app] in H.
    destruct (Z.le_gt_cases y 9999) as [|Hbig]; [done|]. exfalso.
    rewrite Z.abs_eq in H by lia.
    assert (Hn : (5 <= ndigits y)%nat).
    { apply (ndigits_lower y 4). change (10 ^ Z.of_nat 4) with 10000. lia. }
    apply (Hd (Nat.max 4 (ndigits y)) y (B "-" ++ X)); [lia|done].
Qed.

Lemma last_app_cons {A} (l : list A) x : last (l ++ [x]) = Some x.
Proof. induction l as [|y [|z l] IH]; done. Qed.

Lemma dec_S_S k n :
  dec (S (S k)) n = dec k (n / 10 / 10) ++ [digit (n / 10); digit n].
Proof. cbn [dec]. by rewrite <- app_assoc. Qed.

(** A zone that passes the check has an hour below 24. *)
Lemma zone_passes P offset :
  offset <> 0 ->
  let b := P ++ appendZone offset in
  (last b = Some "Z"%char
   \/ exists c h1 h0 x1 x2 x3,
        drop (length b - 6) b = [c; h1; h0; x1; x2; x3]
        /\ in_range 48 (byte_val c) 57 = false
        /\ 10 * (byte_val h1 - 48) + (byte_val h0 - 48) < 24) ->
  zone_hours offset <= 23.
Proof.
  intros Hne b. subst b. unfold appendZone.
  replace (offset =? 0) with false by (symmetry; by apply Z.eqb_neq).
  cbn zeta. fold (zone_hours offset) (zone_minutes offset).
  pose proof (zone_minutes_range offset) as Hm.
  pose proof (zone_hours_nonneg offset) as Hh0.
  rewrite (appendInt_small (zone_minutes offset) 1)
    by (change (10 ^ Z.of_nat 2) with 100; lia).
  rewrite dec_2. unfold appendInt.
  replace (zone_hours offset <? 0) with false by (symmetry; apply Z.ltb_ge; lia).
  rewrite Z.abs_eq by done. cbn [app].
  set (sg := if Z.quot offset 60 <? 0 then B "-" else B "+").
  set (hh := zone_hours offset) in *. set (mm := zone_minutes offset) in *.
  assert (Hk : exists k, Nat.max 2 (ndigits hh) = S (S k)).
  { exists (Nat.max 2 (ndigits hh) - 2)%nat. lia. }
  destruct Hk as [k Hk]. rewrite Hk, dec_S_S.
  intros [HZ|(c & h1 & h0 & x1 & x2 & x3 & Hdrop & Hc & Hnum)].
  { exfalso. cbn [B list_ascii_of_string] in HZ.
    replace (P ++ sg ++ (dec k (hh / 10 / 10) ++ [digit (hh / 10); digit hh])
             ++ [":"%char] ++ [digit (mm / 10); digit mm])
      with ((P ++ sg ++ dec k (hh / 10 / 10)
             ++ [digit (hh / 10); digit hh; ":"%char; digit (mm / 10)])
            ++ [digit mm]) in HZ
      by (rewrite <- !app_assoc; reflexivity).
    rewrite last_app_cons in HZ. inversion HZ as [E].
    pose proof (digit_is_digit mm) as Hd. rewrite E in Hd. done. }
  destruct k as [|k].
  - assert (hh < 100).
    { destruct (Z.lt_ge_cases hh 100) as [|Hbig]; [done|].
      pose proof (ndigits_lower hh 2 ltac:(change (10 ^ Z.of_nat 2) with 100; lia)). lia. }
    cbn [dec app B list_ascii_of_string] in Hdrop.
    assert (Hsg : exists s, sg = [s]) by (unfold sg; destruct (_ <? 0); by eexists).
    destruct Hsg as [s Hs]. rewrite Hs in Hdrop. cbn [app] in Hdrop.
    rewrite drop_app_length' in Hdrop by (rewrite length_app; cbn; lia).
    inversion Hdrop; subst. rewrite !byte_val_digit in Hnum.
    pose proof (two_digits hh ltac:(lia)). lia.
  - exfalso. cbn [dec B list_ascii_of_string] in Hdrop.
    replace (P ++ sg ++ ((dec k (hh / 10 / 10 / 10) ++ [digit (hh / 10 / 10)])
                         ++ [digit (hh / 10); digit hh])
             ++ [":"%char] ++ [digit (mm / 10); digit mm])
      with ((P ++ sg ++ dec k (hh / 10 / 10 / 10))
            ++ [digit (hh / 10 / 10); digit (hh / 10); digit hh; ":"%char;
                digit (mm / 10); digit mm]) in Hdrop
      by (rewrite <- !app_assoc; reflexivity).
    rewrite drop_app_length' in Hdrop by (rewrite !length_app; cbn; lia).
    inversion Hdrop; subst.
    pose proof (digit_is_digit (hh / 10 / 10)) as Hd. unfold is_digit in Hd.
    congruence.
Qed.

Lemma dec_4 n :
  dec 4 n = [digit (n / 10 / 10 / 10); digit (n / 10 / 10); digit (n / 10); digit n].
Proof. reflexivity. Qed.

(** A time that [Time.MarshalJSON] accepts, with a zone of whole minutes,
    is read back from its text. *)
Lemma read_time_appendFormatRFC3339 t :
  valid_time t = true ->
  0 <= t_year t <= 9999 ->
  t_offset t mod 60 = 0 ->
  t_offset t = 0 \/ zone_hours (t_offset t) <= 23 ->
  read_time (appendFormatRFC3339 t) = Some t.
Proof.
  intros Hv Hy Hmin Hz. pose proof Hv as Hv'. unfold valid_time in Hv'. ranges.
  assert (Hday : t_day t <= 31).
  { unfold daysIn in *. repeat match goal with
      | H : context [if ?b then _ else _] |- _ => destruct b
      end; lia. }
  unfold appendFormatRFC3339.
  rewrite (appendInt_small (t_year t) 3)
    by (change (10 ^ Z.of_nat 4) with 10000; lia).
  rewrite !(appendInt_small _ 1) by (change (10 ^ Z.of_nat 2) with 100; lia).
  rewrite dec_4, !dec_2.
  cbn [B list_ascii_of_string app read_time].
  change (Ascii.eqb "-" "-") with true. change (Ascii.eqb "T" "T") with true.
  change (Ascii.eqb ":" ":") with true. cbn [andb].
  change [digit (t_year t / 10 / 10 / 10); digit (t_year t / 10 / 10);
          digit (t_year t / 10); digit (t_year t)] with (dec 4 (t_year t)).
  rewrite (read_dec_small 4 (t_year t))
    by (change (10 ^ Z.of_nat 4) with 10000; lia).
  rewrite !read_dec_2, !Z.mul_0_r, !Z.add_0_l.
  rewrite !two_digits by lia.
  rewrite read_fraction_appendNano by (lia || apply appendZone_head).
  rewrite (read_zone_appendZone _ Hmin Hz).
  destruct t. cbn [t_year t_month t_day t_hour t_minute t_second t_nanosecond
                   t_offset] in *.
  by rewrite Hv.
Qed.

Lemma coerce_loop_ascii fuel :
  forall src, forallb is_ascii src = true -> (length src <= fuel)%nat ->
              coerce_loop fuel src = src.
Proof.
  induction fuel as [|fuel IH]; intros src Hs Hlen.
  - destruct src; [done|cbn in Hlen; lia].
  - destruct src as [|c tl]; [done|].
    cbn [forallb] in Hs. apply andb_true_iff in Hs. destruct Hs as [Hc Hs].
    cbn [length] in Hlen. cbn [coerce_loop].
    rewrite (DecodeRune_low c tl Hc), (invalid_rune_low c Hc).
    cbn [snd]. change (take 1 (c :: tl)) with [c].
    change (drop 1 (c :: tl)) with tl. cbn [app].
    rewrite IH; [done|done|lia].
Qed.

Lemma coerced_ascii l :
  forallb is_ascii l = true ->
  coerced (string_of_list_ascii l) = string_of_list_ascii l.
Proof.
  intros H. unfold coerced, B. rewrite list_ascii_of_string_of_list_ascii.
  by rewrite coerce_loop_ascii.
Qed.

Lemma digit_ascii l : forallb is_digit l = true -> forallb is_ascii l = true.
Proof.
  induction l as [|c l IH]; [done|]. cbn [forallb]. intros H.
  apply andb_true_iff in H. destruct H as [Hc Hl]. rewrite (IH Hl), andb_true_r.
  unfold is_digit in Hc. apply in_range_true in Hc. unfold is_ascii.
  apply Z.ltb_lt. lia.
Qed.

Lemma appendInt_ascii x w : forallb is_ascii (appendInt x w) = true.
Proof.
  unfold appendInt. rewrite forallb_app, (digit_ascii _ (dec_digits _ _)).
  by destruct (x <? 0).
Qed.

Lemma appendNano_ascii ns : forallb is_ascii (appendNano ns) = true.
Proof.
  unfold appendNano. destruct (ns =? 0); [done|].
  cbn [B list_ascii_of_string app forallb]. rewrite forallb_rev.
  pose proof (appendInt_ascii ns 9) as H. rewrite <- forallb_rev in H.
  destruct (trim_zeros_rev_spec (rev (appendInt ns 9))) as [j Hj].
  rewrite Hj, forallb_app in H. by apply andb_true_iff in H as [_ ->].
Qed.

Lemma appendZone_ascii offset : forallb is_ascii (appendZone offset) = true.
Proof.
  unfold appendZone. destruct (offset =? 0); [done|]. cbn zeta.
  rewrite !forallb_app, !appendInt_ascii. by destruct (_ <? 0).
Qed.

Lemma appendFormatRFC3339_ascii t :
  forallb is_ascii (appendFormatRFC3339 t) = true.
Proof.
  unfold appendFormatRFC3339.
  by rewrite !forallb_app, !appendInt_ascii, appendNano_ascii, appendZone_ascii.
Qed.

(** What [Time.MarshalJSON] returning a value says about the time. *)
Lemma encodeTime_Ok t j :
  encodeTime t = Ok j ->
  j = JString (string_of_list_ascii (appendFormatRFC3339 t))
  /\ 0 <= t_year t <= 9999
  /\ (t_offset t = 0 \/ zone_hours (t_offset t) <= 23).
Proof.
  unfold encodeTime.
  destruct (strictRFC3339_error (appendFormatRFC3339 t)) eqn:Hs; [done|].
  intros [= <-]. split; [done|].
  apply strictRFC3339_passes in Hs. destruct Hs as [H4 Hz].
  split; [by apply (year_passes _ _ H4)|].
  destruct (Z.eq_dec (t_offset t) 0) as [|Hne]; [by left|]. right.
  unfold appendFormatRFC3339 in Hz. rewrite !app_assoc in Hz.
  by apply (zone_passes _ _ Hne) in Hz.
Qed.

(** The time a document holds under a key is the span's, when the time
    was accepted by [Time.MarshalJSON] and its zone is of whole minutes. *)
Lemma time_of_encodeTime t j :
  encodeTime t = Ok j ->
  valid_time t = true ->
  t_offset t mod 60 = 0 ->
  time_of (coerced_json j) = Some t.
Proof.
  intros He Hv Hmin. destruct (encodeTime_Ok t j He) as (-> & Hy & Hz).
  cbn [coerced_json time_of].
  rewrite (coerced_ascii _ (appendFormatRFC3339_ascii t)).
  unfold B. rewrite list_ascii_of_string_of_list_ascii.
  by apply read_time_appendFormatRFC3339.
Qed.

(** ** The round trip of an exported span *)

(** A call that returns no error has serialised every span. *)
Lemma ExportSpans_success_documents fe ctx spans :
  forall w w',
    ExportSpans (Some fe) ctx spans w = Ret (None, w') ->
    Forall (fun span => exists d, span_document span = Ok d) spans.
Proof.
  induction spans as [|span spans IH]; intros w w' H; [constructor|].
  rewrite ExportSpans_cons in H.
  destruct (span_document span) as [d|e] eqn:Hd; [|done].
  destruct (File_Write (file fe) (d ++ [newline]) w) as [[[n [e|]] w1]|msg];
    try done.
  constructor; [by exists d|]. by apply (IH w1 w').
Qed.

(** The document of a span, read back. *)
Lemma span_document_read_back span d :
  span_document span = Ok d ->
  exists a e s,
    encodeTime (EndTime span) = Ok e
    /\ encodeTime (StartTime span) = Ok s
    /\ read_json d
       = Some (JObject [("attributes"%string, coerced_json a);
                        ("endTime"%string, coerced_json e);
                        ("name"%string, JString (coerced (Name span)));
                        ("startTime"%string, coerced_json s)]).
Proof.
  unfold span_document. destruct (span_object span) as [j|] eqn:Hj; [|done].
  cbn [rbind]. intros [= <-].
  pose proof (numbers_ok_span_object span j Hj) as Hok.
  pose proof (read_json_indented j Hok) as Hr.
  unfold span_object in Hj.
  destruct (encodeAny (any_KeyValues (Attributes span))) as [a|]; [|done].
  destruct (encodeTime (EndTime span)) as [e|]; [|done].
  destruct (encodeTime (StartTime span)) as [s|]; [|done].
  cbn [rbind] in Hj. inversion Hj; subst j.
  exists a, e, s. split; [done|]. split; [done|].
  rewrite coerced_json_object in Hr. exact Hr.
Qed.

(** C7 as stated fails: the span is exported without error, and the name
    read back from its document is U+FFFD, not the span's name. *)
Lemma name_that_is_not_utf8_is_not_read_back :
  exists w' d j,
    ExportSpans (Some the_exporter) Background [binary_name_span] opened_world
      = Ret (None, w')
    /\ MarshalIndent (spanToMap binary_name_span) "" "  " = (d, None)
    /\ content w' out_json = d ++ [newline]
    /\ read_json d = Some j
    /\ member "name" j
       = Some (JString (String "239" (String "191" (String "189" EmptyString))))
    /\ member "name" j <> Some (JString (Name binary_name_span)).
Proof.
  do 3 eexists.
  split; [vm_compute; reflexivity|].
  split; [vm_compute; reflexivity|].
  split; [vm_compute; reflexivity|].
  split; [vm_compute; reflexivity|].
  split; [vm_compute; reflexivity|].
  vm_compute. discriminate.
Qed.

(** A zone offset with seconds is written in whole minutes: the time read
    back is another one. *)
Example zone_with_seconds_is_not_read_back :
  let t := {| t_year := 2024; t_month := 5; t_day := 17; t_hour := 12;
              t_minute := 0; t_second := 0; t_nanosecond := 0;
              t_offset := 30 |} in
  exists j, encodeTime t = Ok j /\ time_of (coerced_json j) <> Some t.
Proof. eexists. split; [vm_compute; reflexivity|]. vm_compute. discriminate. Qed.

(** C7, as the code has it.  After a call of [ExportSpans] that returned
    no error, every span of the batch has a document, the document reads
    as a JSON object, and in it: the name is the span's name with U+FFFD
    for each byte that starts no well-formed UTF-8 sequence, hence the
    span's name itself when that is valid UTF-8; the start time and the
    end time are the span's, when their zone offsets are whole minutes. *)
Theorem exported_documents_read_back fe ctx spans w w' :
  ExportSpans (Some fe) ctx spans w = Ret (None, w') ->
  forall span,
    span ∈ spans ->
    exists d j,
      MarshalIndent (spanToMap span) "" "  " = (d, None)
      /\ read_json d = Some j
      /\ member "name" j = Some (JString (coerced (Name span)))
      /\ (ValidString (Name span) = true ->
          member "name" j = Some (JString (Name span)))
      /\ (valid_time (StartTime span) = true ->
          t_offset (StartTime span) mod 60 = 0 ->
          member "startTime" j ≫= time_of = Some (StartTime span))
      /\ (valid_time (EndTime span) = true ->
          t_offset (EndTime span) mod 60 = 0 ->
          member "endTime" j ≫= time_of = Some (EndTime span)).
Proof.
  intros H span Hin.
  pose proof (ExportSpans_success_documents fe ctx spans w w' H) as Hall.
  rewrite Forall_forall in Hall. destruct (Hall span Hin) as [d Hd].
  destruct (span_document_read_back span d Hd) as (a & e & s & He & Hs & Hr).
  eexists d, _. split.
  { rewrite MarshalIndent_spanToMap. by rewrite Hd. }
  split; [exact Hr|].
  split; [reflexivity|]. split.
  { intros Hv. cbn. by rewrite (coerced_valid _ Hv). }
  split.
  - intros Hv Hmin. change (time_of (coerced_json s) = Some (StartTime span)).
    by apply time_of_encodeTime.
  - intros Hv Hmin. change (time_of (coerced_json e) = Some (EndTime span)).
    by apply time_of_encodeTime.
Qed.

Lemma exported_documents_read_back_witness :
  exists d j,
    MarshalIndent (spanToMap request_span) "" "  " = (d, None)
    /\ read_json d = Some j
    /\ member "name" j = Some (JString (coerced (Name request_span)))
    /\ (ValidString (Name request_span) = true ->
        member "name" j = Some (JString (Name request_span)))
    /\ (valid_time (StartTime request_span) = true ->
        t_offset (StartTime request_span) mod 60 = 0 ->
        member "startTime" j ≫= time_of = Some (StartTime request_span))
    /\ (valid_time (EndTime request_span) = true ->
        t_offset (EndTime request_span) mod 60 = 0 ->
        member "endTime" j ≫= time_of = Some (EndTime request_span)).
Proof.
  apply (exported_documents_read_back the_exporter Background
           [request_span; query_span] opened_world
           (world_of (ExportSpans (Some the_exporter) Background
                        [request_span; query_span] opened_world))).
  - vm_compute. reflexivity.
  - apply list_elem_of_here.
Defined.

(** ** The documents of a batch *)

Lemma rmap_Forall2 {A C} (f : A -> result C) l ys :
  rmap f l = Ok ys -> Forall2 (fun x y => f x = Ok y) l ys.
Proof.
  revert ys. induction l as [|x l IH]; intros ys; cbn [rmap].
  - intros [= <-]. constructor.
  - destruct (f x) as [y|] eqn:Hx; [|done]. cbn [rbind].
    destruct (rmap f l) as [ys'|]; [|done]. cbn [rbind]. intros [= <-].
    constructor; [done|]. by apply IH.
Qed.

Lemma coerced_json_array xs :
  coerced_json (JArray xs) = JArray (map coerced_json xs).
Proof. reflexivity. Qed.

Lemma coerced_Type_String v : coerced (Type_String v) = Type_String v.
Proof. destruct v; vm_compute; reflexivity. Qed.

Lemma number_of_floats l js :
  rmap number_of_float l = Ok js ->
  exists lits,
    Forall2 (fun f lit => encodeFloat f = Ok lit) l lits
    /\ js = map JNumber lits.
Proof.
  revert js. induction l as [|f l IH]; intros js; cbn [rmap].
  - intros [= <-]. by exists [].
  - unfold number_of_float at 1.
    destruct (encodeFloat f) as [lit|] eqn:Hf; [|done]. cbn [rbind].
    destruct (rmap number_of_float l) as [js'|]; [|done]. cbn [rbind].
    intros [= <-]. destruct (IH js' eq_refl) as (lits & HF & ->).
    exists (lit :: lits). split; [by constructor|done].
Qed.

(** What a reader finds for an attribute value that was encoded. *)
Lemma value_read_encodeInterface v j :
  encodeInterface v = Ok j -> value_read v (coerced_json j).
Proof.
  destruct v as [|b|i|f|s|l|l|l|l]; cbn [encodeInterface value_read].
  - by intros [= <-].
  - by intros [= <-].
  - by intros [= <-].
  - unfold number_of_float. destruct (encodeFloat f) as [lit|]; [|done].
    cbn [rbind]. intros [= <-]. by exists lit.
  - by intros [= <-].
  - intros [= <-]. rewrite coerced_json_array, map_map. f_equal.
  - intros [= <-]. rewrite coerced_json_array, map_map. f_equal.
  - destruct (rmap number_of_float l) as [js|] eqn:Hl; [|done].
    cbn [rbind]. intros [= <-].
    destruct (number_of_floats l js Hl) as (lits & HF & ->).
    exists lits. split; [done|].
    rewrite coerced_json_array, map_map. f_equal.
  - intros [= <-]. rewrite coerced_json_array, map_map. f_equal.
Qed.

Lemma attribute_read_encodeKeyValue kv j :
  encodeKeyValue kv = Ok j -> attribute_read kv (coerced_json j).
Proof.
  unfold encodeKeyValue, Value_MarshalJSON.
  destruct (encodeInterface (KeyValue_Value kv)) as [jv|] eqn:Hv; [|done].
  cbn [rbind]. intros [= <-].
  exists (coerced_json jv). split; [by apply value_read_encodeInterface|].
  rewrite coerced_json_object. unfold coerced_member. cbn [map fst snd].
  rewrite coerced_json_object. unfold coerced_member. cbn [map fst snd].
  change (coerced_json (JString ?s)) with (JString (coerced s)).
  rewrite coerced_Type_String. reflexivity.
Qed.

Lemma attributes_read_encodeAny attrs a :
  encodeAny (any_KeyValues attrs) = Ok a ->
  attributes_read attrs (coerced_json a).
Proof.
  destruct attrs as [kvs|]; cbn [encodeAny attributes_read].
  - destruct (rmap encodeKeyValue kvs) as [js|] eqn:Hl; [|done].
    cbn [rbind]. intros [= <-].
    exists (map coerced_json js). split; [|done].
    apply rmap_Forall2 in Hl. apply Forall2_fmap_r.
    eapply Forall2_impl; [exact Hl|].
    intros kv j Hj. by apply attribute_read_encodeKeyValue.
  - by intros [= <-].
Qed.

(** The document of a span has the layout of a four-member object, and a
    reader finds the span's values in it. *)
Lemma is_document_of_reproduced span d :
  is_document_of span d -> reproduced_in span d.
Proof.
  intros (a & e & s & Ha & He & Hs & ->). split.
  - exists (indented [] (B "  ") 1 a), (indented [] (B "  ") 1 e),
      (indented [] (B "  ") 1 (JString (Name span))),
      (indented [] (B "  ") 1 s).
    rewrite indented_object. cbn [more_members].
    change (appendNewline [] (B "  ") 1) with ([newline] ++ B "  ").
    change (appendNewline [] (B "  ") 0) with [newline].
    change (appendString "attributes") with (quoted "attributes").
    change (appendString "endTime") with (quoted "endTime").
    change (appendString "name") with (quoted "name").
    change (appendString "startTime") with (quoted "startTime").
    rewrite <- !app_assoc. reflexivity.
  - assert (Hj : span_object span
                 = Ok (JObject [("attributes"%string, a); ("endTime"%string, e);
                                ("name"%string, JString (Name span));
                                ("startTime"%string, s)])).
    { unfold span_object. by rewrite Ha, He, Hs. }
    pose proof (read_json_indented _ (numbers_ok_span_object span _ Hj)) as Hr.
    rewrite coerced_json_object in Hr. unfold coerced_member in Hr.
    cbn [map fst snd] in Hr.
    destruct (encodeTime_Ok _ _ He) as (Ee & _ & _).
    destruct (encodeTime_Ok _ _ Hs) as (Es & _ & _).
    exists (coerced_json a). split.
    { rewrite Hr, Ee, Es. cbn [coerced_json].
      rewrite !(coerced_ascii _ (appendFormatRFC3339_ascii _)). reflexivity. }
    split; [by apply attributes_read_encodeAny|].
    split; [apply coerced_valid|].
    unfold rfc3339, B. rewrite !list_ascii_of_string_of_list_ascii.
    split; intros Hv Hmin.
    + destruct (encodeTime_Ok _ _ He) as (_ & Hy & Hz).
      by apply read_time_appendFormatRFC3339.
    + destruct (encodeTime_Ok _ _ Hs) as (_ & Hy & Hz).
      by apply read_time_appendFormatRFC3339.
Qed.

(** C1 as stated fails: two spans with different names are exported
    without error and leave the same file, so the document does not
    reproduce the name. *)
Lemma spans_with_different_names_give_one_document :
  exists d w1 w2,
    Name binary_name_span <> Name other_binary_name_span
    /\ MarshalIndent (spanToMap binary_name_span) "" "  " = (d, None)
    /\ MarshalIndent (spanToMap other_binary_name_span) "" "  " = (d, None)
    /\ ExportSpans (Some the_exporter) Background [binary_name_span]
         opened_world = Ret (None, w1)
    /\ ExportSpans (Some the_exporter) Background [other_binary_name_span]
         opened_world = Ret (None, w2)
    /\ content w1 out_json = d ++ [newline]
    /\ content w2 out_json = d ++ [newline].
Proof.
  do 3 eexists.
  split; [discriminate|].
  split; [vm_compute; reflexivity|].
  split; [vm_compute; reflexivity|].
  split; [vm_compute; reflexivity|].
  split; [vm_compute; reflexivity|].
  split; vm_compute; reflexivity.
Qed.

(** C1, as the code has it.  Whenever [ExportSpans] returns without error
    on [N] spans, there are [N] documents, one per span and in the order
    of the spans, and what the call wrote to the output file, at the
    position of its descriptor, is these documents in order, each followed
    by one newline; with the descriptor at the end of the file, the file
    is its old content followed by them.  The document of a span is the
    two-space indented text of the object with the members [attributes],
    [endTime], [name] and [startTime], in this order, one per line.  A
    reader finds in it: under [name] the span's name with U+FFFD for every
    byte that starts no well-formed UTF-8 sequence, the name itself when
    it is valid UTF-8; under [endTime] and [startTime] the RFC 3339 texts
    of the two times, which give the times back when their zone offsets
    are whole minutes; under [attributes] [null] for the nil slice, else
    one object per attribute, in order, with the attribute's key and its
    value under the name of its type. *)
Theorem ExportSpans_writes_documents fe ctx id h spans w w' :
  file fe = Some id ->
  handles w !! id = Some h ->
  ExportSpans (Some fe) ctx spans w = Ret (None, w') ->
  exists docs,
    length docs = length spans
    /\ Forall2 is_document_of spans docs
    /\ Forall2 reproduced_in spans docs
    /\ content w' (f_name h)
       = write_at (f_pos h) (lines docs) (content w (f_name h))
    /\ (f_pos h = length (content w (f_name h)) ->
        content w' (f_name h) = content w (f_name h) ++ lines docs).
Proof.
  intros Hf Hh H.
  destruct (ExportSpans_effect fe ctx id spans Hf w None w' h Hh H)
    as (data & Hc & _ & _ & _ & Hdocs).
  destruct (Hdocs eq_refl) as (docs & HF & ->).
  exists docs. split; [symmetry; by eapply Forall2_length|].
  split; [done|]. split.
  { eapply Forall2_impl; [exact HF|]. apply is_document_of_reproduced. }
  split; [done|].
  intros Hp. rewrite Hc, Hp. apply write_at_end.
Qed.

Lemma ExportSpans_writes_documents_witness :
  exists docs,
    length docs = length [request_span; query_span]
    /\ Forall2 is_document_of [request_span; query_span] docs
    /\ Forall2 reproduced_in [request_span; query_span] docs
    /\ content
         (world_of (ExportSpans (Some the_exporter) Background
                      [request_span; query_span] opened_world))
         (f_name the_file)
       = write_at (f_pos the_file) (lines docs)
           (content opened_world (f_name the_file))
    /\ (f_pos the_file = length (content opened_world (f_name the_file)) ->
        content
          (world_of (ExportSpans (Some the_exporter) Background
                       [request_span; query_span] opened_world))
          (f_name the_file)
        = content opened_world (f_name the_file) ++ lines docs).
Proof.
  apply (ExportSpans_writes_documents the_exporter Background 0%nat the_file
           [request_span; query_span] opened_world).
  - reflexivity.
  - vm_compute. reflexivity.
  - vm_compute. reflexivity.
Defined.

(* ===================================================================== *)
(** * Further properties of the exporter and the setup routine *)
(* ===================================================================== *)

(** ** How calls of [ExportSpans] compose *)

(** X1.  One call on a concatenation is the call on the first part and, only
    if that returned no error, the call on the second part in the state
    the first left; an error or a panic of the first part is the result,
    and nothing of the second part is attempted.  This holds for the nil
    exporter too. *)
Theorem ExportSpans_concatenation f ctx spans1 spans2 w :
  ExportSpans f ctx (spans1 ++ spans2) w =
  match ExportSpans f ctx spans1 w with
  | Ret (None, w1) => ExportSpans f ctx spans2 w1
  | other => other
  end.
Proof.
  revert w. induction spans1 as [|span spans1 IH]; intros w; [reflexivity|].
  cbn [app ExportSpans].
  destruct (MarshalIndent (spanToMap span) "" "  ") as [data [e|]];
    [reflexivity|].
  unfold bind, deref. destruct f as [fe|]; [|reflexivity].
  destruct (File_Write (file fe) (data ++ [newline]) w) as [[[n [e|]] w1]|msg];
    [reflexivity|apply IH|reflexivity].
Qed.

(** X2.  Neither [ExportSpans] nor [Shutdown] looks at its context: a context
    that is already cancelled changes nothing. *)
Theorem exporter_ignores_context f ctx ctx' spans w :
  ExportSpans f ctx spans w = ExportSpans f ctx' spans w
  /\ Shutdown f ctx w = Shutdown f ctx' w.
Proof.
  split; [|reflexivity].
  revert w. induction spans as [|span spans IH]; intros w; [reflexivity|].
  cbn [ExportSpans].
  destruct (MarshalIndent (spanToMap span) "" "  ") as [data [e|]];
    [reflexivity|].
  unfold bind, deref. destruct f as [fe|]; [|reflexivity].
  destruct (File_Write (file fe) (data ++ [newline]) w) as [[[n [e|]] w1]|msg];
    [reflexivity|apply IH|reflexivity].
Qed.

(** ** What a call of [ExportSpans] leaves alone *)

(** X3.  A call changes at most the content of the exporter's file, the
    position of its descriptor and the free space.  It closes nothing, the
    position never moves back, no other file and no other descriptor
    changes, and directories, permissions, providers, the global provider
    and the handled errors stay as they are. *)
Theorem ExportSpans_frame fe ctx id h spans w r w' :
  file fe = Some id ->
  handles w !! id = Some h ->
  ExportSpans (Some fe) ctx spans w = Ret (r, w') ->
  (exists h',
     handles w' !! id = Some h'
     /\ f_name h' = f_name h /\ f_closed h' = f_closed h
     /\ (f_pos h <= f_pos h')%nat)
  /\ (free w' <= free w)%nat
  /\ (forall q, q <> f_name h -> files w' !! q = files w !! q)
  /\ (forall j, j <> id -> handles w' !! j = handles w !! j)
  /\ dirs w' = dirs w /\ readonly w' = readonly w
  /\ providers w' = providers w
  /\ globalTracerProvider w' = globalTracerProvider w
  /\ handled w' = handled w.
Proof.
  intros Hf Hh H.
  destruct (ExportSpans_effect fe ctx id spans Hf w r w' h Hh H)
    as (data & _ & Hh' & Hfree & (Hd & Hr & Hp & Hg & Hhd & Hfi & Hot) & _).
  split.
  { exists (advance (length data) h). cbn [advance f_name f_closed f_pos].
    repeat split; [done|lia]. }
  split; [lia|]. repeat split; done.
Qed.

Lemma ExportSpans_frame_witness :
  exists h',
    handles (world_of (ExportSpans (Some the_exporter) Background
                         [request_span] opened_world)) !! 0%nat = Some h'
    /\ f_name h' = f_name the_file /\ f_closed h' = f_closed the_file
    /\ (f_pos the_file <= f_pos h')%nat.
Proof.
  refine (proj1 (ExportSpans_frame the_exporter Background 0%nat the_file
                   [request_span] opened_world None
                   (world_of (ExportSpans (Some the_exporter) Background
                                [request_span] opened_world)) _ _ _)).
  - reflexivity.
  - vm_compute. reflexivity.
  - vm_compute. reflexivity.
Defined.

(** ** A device that runs out of space *)

(** X4.  When the device has room for only part of a span's document, the call
    returns the write error, the file (written at its end) ends with the
    bytes of the document that still fitted, a proper prefix of the
    record, and the device is full.  The spans after it are not
    attempted. *)
Theorem ExportSpans_short_write fe ctx id h span spans d w :
  file fe = Some id ->
  handles w !! id = Some h ->
  f_closed h = false ->
  f_pos h = length (content w (f_name h)) ->
  MarshalIndent (spanToMap span) "" "  " = (d, None) ->
  (free w < length (d ++ [newline]))%nat ->
  exists w',
    ExportSpans (Some fe) ctx (span :: spans) w
      = Ret (Some (PathError "write" (f_name h) ENOSPC), w')
    /\ content w' (f_name h)
       = content w (f_name h) ++ take (free w) (d ++ [newline])
    /\ (length (take (free w) (d ++ [newline])) < length (d ++ [newline]))%nat
    /\ free w' = 0%nat.
Proof.
  intros Hf Hh Hc Hp Hm Hroom.
  rewrite MarshalIndent_spanToMap in Hm.
  destruct (span_document span) as [d'|] eqn:Hd; [|congruence].
  inversion Hm; subst d'.
  rewrite ExportSpans_cons, Hd, Hf.
  destruct (File_Write_open id h (d ++ [newline]) w Hh Hc)
    as (w1 & HW & Hcont & _ & Hfree & _).
  cbn zeta in *.
  assert (Hn : Nat.min (length (d ++ [newline])) (free w) = free w) by lia.
  rewrite Hn in *.
  replace (free w <? length (d ++ [newline]))%nat with true in HW
    by (symmetry; apply Nat.ltb_lt; lia).
  rewrite HW. exists w1. split; [done|].
  split. { by rewrite Hcont, Hp, write_at_end. }
  split. { rewrite length_take. lia. }
  lia.
Qed.

Lemma ExportSpans_short_write_witness :
  exists w',
    ExportSpans (Some the_exporter) Background [request_span; query_span]
      nearly_full_world
      = Ret (Some (PathError "write" (f_name the_file) ENOSPC), w')
    /\ content w' (f_name the_file)
       = content nearly_full_world (f_name the_file)
         ++ take (free nearly_full_world) (request_document ++ [newline])
    /\ (length (take (free nearly_full_world) (request_document ++ [newline]))
        < length (request_document ++ [newline]))%nat
    /\ free w' = 0%nat.
Proof.
  apply (ExportSpans_short_write the_exporter Background 0%nat the_file
           request_span [query_span] request_document nearly_full_world).
  - reflexivity.
  - vm_compute. reflexivity.
  - reflexivity.
  - vm_compute. reflexivity.
  - vm_compute. reflexivity.
  - vm_compute. lia.
Defined.

(** ** The setup routine when the file can be created *)

(** The state after [os.Create] succeeded on [filePath] and the pipeline
    around the new exporter has been installed. *)
Lemma TraceFileProvider_created filePath serviceName serviceVersion w :
  create_errno w filePath = None ->
  let id := fresh (dom (handles w)) in
  let p := fresh (dom (providers w)) in
  TraceFileProvider filePath serviceName serviceVersion w
  = Ret ((cleanup p, None),
         installed p
           (pipeline_of (Some {| file := Some id |}) serviceName serviceVersion)
           (set_handles
              (<[id := {| f_name := filePath; f_pos := 0; f_closed := false |}]>
                 (handles w))
              (set_files (<[filePath := []]> (files w)) w))).
Proof.
  intros Hc id p.
  apply (TraceFileProvider_unfold filePath serviceName serviceVersion w
           (Some {| file := Some id |}) None
           (set_handles
              (<[id := {| f_name := filePath; f_pos := 0; f_closed := false |}]>
                 (handles w))
              (set_files (<[filePath := []]> (files w)) w))).
  unfold NewFileSpanExporter, bind, os_Create. by rewrite Hc.
Qed.

(** X5.  When [os.Create] has no reason to fail, [TraceFileProvider] returns
    the teardown closure and a nil error.  The output file now exists and
    is empty, and a new provider has been put in the global slot: its
    batcher exports to a new exporter holding the open file at position 0,
    it samples every span, the resource it was given carries the schema
    URL and the service name and version, its queue is empty and it is
    running. *)
Theorem TraceFileProvider_installs_pipeline
    filePath serviceName serviceVersion w :
  create_errno w filePath = None ->
  let id := fresh (dom (handles w)) in
  let p := fresh (dom (providers w)) in
  exists w',
    TraceFileProvider filePath serviceName serviceVersion w
      = Ret ((cleanup p, None), w')
    /\ handles w !! id = None
    /\ providers w !! p = None
    /\ files w' !! filePath = Some []
    /\ handles w' !! id
       = Some {| f_name := filePath; f_pos := 0; f_closed := false |}
    /\ globalTracerProvider w' = Some p
    /\ providers w' !! p
       = Some {| tp_batcher :=
                   Some (SpanExporter_of (Some {| file := Some id |}));
                 tp_sampler := AlwaysSample;
                 tp_resource :=
                   Some {| res_schemaURL :=
                             "https://opentelemetry.io/schemas/1.7.0";
                           res_attributes :=
                             [ {| Key := "service.name";
                                  KeyValue_Value := STRING serviceName |};
                               {| Key := "service.version";
                                  KeyValue_Value := STRING serviceVersion |} ] |};
                 tp_queue := [];
                 tp_isShutdown := false |}.
Proof.
  intros Hc id p. eexists.
  split; [apply (TraceFileProvider_created _ _ _ _ Hc)|].
  split. { apply not_elem_of_dom, is_fresh. }
  split. { apply not_elem_of_dom, is_fresh. }
  cbn [installed files handles providers globalTracerProvider set_global
         set_providers set_handles set_files].
  split. { by rewrite lookup_insert_eq. }
  split. { by rewrite lookup_insert_eq. }
  split; [done|]. by rewrite lookup_insert_eq.
Qed.

Lemma TraceFileProvider_installs_pipeline_witness :
  exists w',
    TraceFileProvider out_json "svc" "1.0" initial_world
      = Ret ((cleanup 0, None), w')
    /\ files w' !! out_json = Some []
    /\ handles w' !! 0%nat = Some the_file
    /\ globalTracerProvider w' = Some 0%nat
    /\ providers w' !! 0%nat = Some (pipeline_of (Some the_exporter) "svc" "1.0").
Proof.
  destruct (TraceFileProvider_installs_pipeline out_json "svc" "1.0"
              initial_world) as (w' & H1 & _ & _ & H2 & H3 & H4 & H5).
  - vm_compute. reflexivity.
  - exists w'. repeat split; assumption.
Defined.

(** X6.  Setup never fails and never tears anything down: whatever the path,
    [TraceFileProvider] returns a closure and a nil error and puts a new
    provider in the global slot; every provider that existed, the one that
    was global included, is exactly as it was, still running if it was,
    and every open file stays open at its position. *)
Theorem TraceFileProvider_keeps_earlier_pipelines
    filePath serviceName serviceVersion w :
  exists p w',
    TraceFileProvider filePath serviceName serviceVersion w
      = Ret ((cleanup p, None), w')
    /\ providers w !! p = None
    /\ globalTracerProvider w' = Some p
    /\ (forall q tp, providers w !! q = Some tp -> providers w' !! q = Some tp)
    /\ (forall i h, handles w !! i = Some h -> handles w' !! i = Some h).
Proof.
  assert (HN : exists exporter err w1,
             NewFileSpanExporter filePath w = Ret ((exporter, err), w1)
             /\ providers w1 = providers w
             /\ (forall i h, handles w !! i = Some h -> handles w1 !! i = Some h)).
  { unfold NewFileSpanExporter, bind, os_Create.
    destruct (create_errno w filePath) as [e|].
    - by eexists _, _, _.
    - eexists _, _, _. split; [reflexivity|]. split; [done|].
      intros i h Hi. cbn [handles set_handles]. rewrite lookup_insert_ne; [done|].
      intros <-. pose proof (is_fresh (dom (handles w))) as Hfr.
      apply not_elem_of_dom in Hfr. congruence. }
  destruct HN as (exporter & err & w1 & HN & Hp & Hh).
  exists (fresh (dom (providers w1))). eexists.
  split; [apply (TraceFileProvider_unfold _ _ _ _ _ _ _ HN)|].
  cbn [installed providers handles globalTracerProvider set_global set_providers].
  rewrite Hp.
  split. { apply not_elem_of_dom, is_fresh. }
  split; [done|]. split; [|done].
  intros q tp Hq. rewrite lookup_insert_ne; [done|].
  intros <-. pose proof (is_fresh (dom (providers w))) as Hfr.
  apply not_elem_of_dom in Hfr. congruence.
Qed.

Lemma cleanup_empty_queue fe id p tp h w :
  providers w !! p = Some tp ->
  tp_isShutdown tp = false ->
  tp_batcher tp = Some (SpanExporter_of (Some fe)) ->
  tp_queue tp = [] ->
  file fe = Some id ->
  handles w !! id = Some h ->
  f_closed h = false ->
  cleanup p w
  = Ret (tt, set_handles (<[id := close_file h]> (handles w)) (draining p tp w)).
Proof.
  intros Hp Hs Hb Hq Hf Hh Hc.
  rewrite cleanup_unfold, (TracerProvider_Shutdown_active p tp _ w Hp Hs Hb), Hq.
  cbn [batches export_batches]. unfold bind, ret. cbn [exporter_Shutdown].
  rewrite Shutdown_Some, Hf.
  by rewrite (File_Close_open id h (draining p tp w) Hh Hc).
Qed.

(** X7.  Setup followed at once by the teardown closure it returned: both
    return, the output file exists and is empty, its descriptor is closed,
    the provider is shut down with nothing queued, nothing was handed to
    the error handler, and calling the closure once more changes
    nothing. *)
Theorem setup_then_teardown filePath serviceName serviceVersion w :
  create_errno w filePath = None ->
  exists teardown p w1 w2,
    TraceFileProvider filePath serviceName serviceVersion w
      = Ret ((teardown, None), w1)
    /\ teardown w1 = Ret (tt, w2)
    /\ files w2 !! filePath = Some []
    /\ handles w2 !! fresh (dom (handles w))
       = Some {| f_name := filePath; f_pos := 0; f_closed := true |}
    /\ globalTracerProvider w2 = Some p
    /\ (exists tp, providers w2 !! p = Some tp
                   /\ tp_isShutdown tp = true /\ tp_queue tp = [])
    /\ handled w2 = handled w
    /\ teardown w2 = Ret (tt, w2).
Proof.
  intros Hc.
  pose proof (TraceFileProvider_created filePath serviceName serviceVersion w Hc)
    as HT. cbn zeta in HT.
  set (id := fresh (dom (handles w))) in *.
  set (p := fresh (dom (providers w))) in *.
  set (fe := {| file := Some id |}) in *.
  set (tp := pipeline_of (Some fe) serviceName serviceVersion) in *.
  set (h := {| f_name := filePath; f_pos := 0; f_closed := false |}) in *.
  set (w1 := installed p tp _) in *.
  assert (Hp : providers w1 !! p = Some tp).
  { subst w1. cbn [installed providers set_global set_providers].
    apply lookup_insert_eq. }
  assert (Hh : handles w1 !! id = Some h).
  { subst w1. cbn [installed handles set_global set_providers set_handles].
    apply lookup_insert_eq. }
  pose proof (cleanup_empty_queue fe id p tp h w1 Hp eq_refl eq_refl eq_refl
                eq_refl Hh eq_refl) as HC.
  exists (cleanup p), p, w1. eexists.
  split; [exact HT|]. split; [exact HC|].
  cbn [files handles providers globalTracerProvider handled set_handles
         draining set_providers].
  split. { subst w1. cbn. apply lookup_insert_eq. }
  split; [by rewrite lookup_insert_eq|].
  split; [done|]. split.
  { eexists. rewrite lookup_insert_eq. by split. }
  split; [done|].
  rewrite cleanup_unfold.
  erewrite TracerProvider_Shutdown_done; [reflexivity| |].
  - cbn [providers set_handles draining set_providers].
    apply lookup_insert_eq.
  - reflexivity.
Qed.

Lemma setup_then_teardown_witness :
  exists teardown p w1 w2,
    TraceFileProvider out_json "svc" "1.0" initial_world
      = Ret ((teardown, None), w1)
    /\ teardown w1 = Ret (tt, w2)
    /\ files w2 !! out_json = Some []
    /\ handles w2 !! fresh (dom (handles initial_world))
       = Some {| f_name := out_json; f_pos := 0; f_closed := true |}
    /\ globalTracerProvider w2 = Some p
    /\ (exists tp, providers w2 !! p = Some tp
                   /\ tp_isShutdown tp = true /\ tp_queue tp = [])
    /\ handled w2 = handled initial_world
    /\ teardown w2 = Ret (tt, w2).
Proof.
  apply (setup_then_teardown out_json "svc" "1.0" initial_world).
  vm_compute. reflexivity.
Defined.

(** ** The output file as a stream of documents *)

Lemma skip_ws_all ws : forallb is_ws ws = true -> skip_ws ws = [].
Proof.
  induction ws as [|c ws IH]; [done|]. cbn [forallb skip_ws].
  intros H. apply andb_true_iff in H. destruct H as [-> H]. by apply IH.
Qed.

Lemma lines_length_ge docs : (length docs <= length (lines docs))%nat.
Proof.
  induction docs as [|d docs IH]; [done|].
  change (lines (d :: docs)) with ((d ++ [newline]) ++ lines docs).
  rewrite !length_app. cbn [length]. lia.
Qed.

(** Documents written one per record are read back one by one. *)
Lemma read_stream_lines js :
  forallb numbers_ok js = true ->
  forall fuel ws,
    forallb is_ws ws = true ->
    (length js < fuel)%nat ->
    read_stream fuel (ws ++ lines (map document_text js))
    = Some (map coerced_json js).
Proof.
  induction js as [|j js IH]; intros Hok fuel ws Hws Hfuel.
  - destruct fuel as [|fuel]; [cbn in Hfuel; lia|].
    cbn [map lines concat read_stream]. rewrite app_nil_r.
    by rewrite (skip_ws_all ws Hws).
  - cbn [forallb] in Hok. apply andb_true_iff in Hok. destruct Hok as [Hj Hok].
    destruct fuel as [|fuel]; [cbn in Hfuel; lia|]. cbn [length] in Hfuel.
    cbn [map]. change (lines (?d :: ?ds)) with ((d ++ [newline]) ++ lines ds).
    rewrite <- app_assoc. set (X := [newline] ++ lines (map document_text js)).
    cbn [read_stream].
    assert (Hs : exists c r, skip_ws (ws ++ document_text j ++ X) = c :: r).
    { rewrite skip_ws_app by done.
      destruct (indented_head [] (B "  ") 0 j Hj) as (c & r & Hcr & W & _).
      unfold document_text. rewrite Hcr. cbn [app].
      rewrite (skip_ws_head c _ W). by eexists _, _. }
    destruct Hs as (c & r & ->).
    rewrite read_value_ws by done.
    pose proof (indented_reads_back [] (B "  ") eq_refl eq_refl j Hj) as HR.
    unfold document_text at 2.
    rewrite HR; [| |reflexivity].
    + unfold X. rewrite (IH Hok fuel [newline]); [done|done|lia].
    + rewrite !length_app.
      pose proof (need_le_length [] (B "  ") j 0%nat Hj). unfold document_text.
      lia.
Qed.

Lemma documents_of_spans spans docs :
  Forall2 is_document_of spans docs ->
  exists js,
    Forall2 (fun span j => Marshal (spanToMap span) = Ok j) spans js
    /\ docs = map document_text js
    /\ forallb numbers_ok js = true.
Proof.
  induction 1 as [|span d spans docs Hd _ (js & HF & -> & Hok)].
  - by exists [].
  - apply span_document_Ok in Hd. unfold span_document in Hd.
    destruct (span_object span) as [j|] eqn:Hj; [|done].
    cbn [rbind] in Hd. inversion Hd; subst d.
    exists (j :: js). split; [|split].
    + constructor; [by rewrite Marshal_spanToMap|done].
    + reflexivity.
    + cbn [forallb]. by rewrite (numbers_ok_span_object span j Hj), Hok.
Qed.

(** X8.  Let the output file hold the documents [js0], one per record, with
    the exporter's descriptor at its end; an empty file holds none.  After
    a call of [ExportSpans] that returns no error the file reads, as a
    stream of JSON documents, as [js0] followed by one document per span
    of the batch, in order, each the object [json.Marshal] makes of the
    span's map (strings coerced to UTF-8). *)
Theorem exported_file_reads_as_documents fe ctx id h spans js0 w w' :
  file fe = Some id ->
  handles w !! id = Some h ->
  f_pos h = length (content w (f_name h)) ->
  content w (f_name h) = lines (map document_text js0) ->
  forallb numbers_ok js0 = true ->
  ExportSpans (Some fe) ctx spans w = Ret (None, w') ->
  exists js,
    Forall2 (fun span j => Marshal (spanToMap span) = Ok j) spans js
    /\ content w' (f_name h) = lines (map document_text (js0 ++ js))
    /\ read_documents (content w' (f_name h))
       = Some (map coerced_json (js0 ++ js)).
Proof.
  intros Hf Hh Hp Hc0 Hok0 H.
  destruct (ExportSpans_effect fe ctx id spans Hf w None w' h Hh H)
    as (data & Hc & _ & _ & _ & Hdocs).
  destruct (Hdocs eq_refl) as (docs & HF & ->).
  destruct (documents_of_spans spans docs HF) as (js & HJ & -> & Hok).
  rewrite Hp, write_at_end, Hc0, <- lines_app, <- map_app in Hc.
  exists js. split; [done|]. split; [done|].
  rewrite Hc. unfold read_documents.
  apply (read_stream_lines (js0 ++ js)) with (ws := []).
  - by rewrite forallb_app, Hok0, Hok.
  - reflexivity.
  - pose proof (lines_length_ge (map document_text (js0 ++ js))) as Hl.
    rewrite length_map in Hl. lia.
Qed.

Lemma exported_file_reads_as_documents_witness :
  exists js,
    Forall2 (fun span j => Marshal (spanToMap span) = Ok j)
      [request_span; query_span] js
    /\ content (world_of (ExportSpans (Some the_exporter) Background
                            [request_span; query_span] opened_world))
         (f_name the_file)
       = lines (map document_text ([] ++ js))
    /\ read_documents
         (content (world_of (ExportSpans (Some the_exporter) Background
                               [request_span; query_span] opened_world))
            (f_name the_file))
       = Some (map coerced_json ([] ++ js)).
Proof.
  apply (exported_file_reads_as_documents the_exporter Background 0%nat
           the_file [request_span; query_span] [] opened_world).
  - reflexivity.
  - vm_compute. reflexivity.
  - vm_compute. reflexivity.
  - vm_compute. reflexivity.
  - reflexivity.
  - vm_compute. reflexivity.
Defined.

(** X9.  A document is never one line: its first line is the opening brace
    alone, its second line starts, two spaces in, with the key
    [attributes], and its last line is the closing brace alone.  The first
    line of the file is therefore not a JSON document. *)
Theorem document_spans_lines span d :
  MarshalIndent (spanToMap span) "" "  " = (d, None) ->
  (exists body,
     d = B "{" ++ [newline] ++ B "  " ++ appendString "attributes" ++ B ": "
         ++ body ++ [newline] ++ B "}")
  /\ read_json (B "{") = None.
Proof.
  intros Hm. split; [|reflexivity].
  rewrite MarshalIndent_spanToMap in Hm.
  destruct (span_document span) as [d'|] eqn:Hd; [|congruence].
  inversion Hm; subst d'. apply span_document_Ok in Hd.
  destruct Hd as (a & e & s & _ & _ & _ & ->).
  rewrite indented_object.
  exists (indented [] (B "  ") 1 a
          ++ more_members [] (B "  ") 1
               [("endTime"%string, e); ("name"%string, JString (Name span));
                ("startTime"%string, s)]).
  rewrite <- app_assoc. reflexivity.
Qed.

Lemma document_spans_lines_witness :
  (exists body,
     request_document
     = B "{" ++ [newline] ++ B "  " ++ appendString "attributes" ++ B ": "
       ++ body ++ [newline] ++ B "}")
  /\ read_json (B "{") = None.
Proof.
  apply (document_spans_lines request_span request_document).
  vm_compute. reflexivity.
Defined.

(** ** An exporter that was not built by the constructor *)

(** X10.  The zero value of [FileSpanExporter] has a nil file.  Unlike the nil
    exporter it does not panic: [Shutdown] returns the invalid-argument
    error, [ExportSpans] returns it for the first span that serialises,
    and neither changes anything. *)
Theorem zero_value_exporter_returns_errors ctx w :
  Shutdown (Some {| file := None |}) ctx w = Ret (Some ErrInvalid, w)
  /\ ExportSpans (Some {| file := None |}) ctx [] w = Ret (None, w)
  /\ (forall span spans data,
        MarshalIndent (spanToMap span) "" "  " = (data, None) ->
        ExportSpans (Some {| file := None |}) ctx (span :: spans) w
        = Ret (Some ErrInvalid, w))
  /\ (forall span spans e,
        (MarshalIndent (spanToMap span) "" "  ").2 = Some e ->
        ExportSpans (Some {| file := None |}) ctx (span :: spans) w
        = Ret (Some e, w)).
Proof.
  split; [reflexivity|]. split; [reflexivity|]. split.
  - intros span spans data Hm. rewrite ExportSpans_cons.
    rewrite MarshalIndent_spanToMap in Hm.
    by destruct (span_document span); [|congruence].
  - intros span spans e Hm. rewrite ExportSpans_cons.
    rewrite MarshalIndent_spanToMap in Hm.
    destruct (span_document span); cbn in Hm; congruence.
Qed.

Lemma zero_value_exporter_returns_errors_witness :
  ExportSpans (Some {| file := None |}) Background [request_span] initial_world
  = Ret (Some ErrInvalid, initial_world).
Proof.
  apply (proj1 (proj2 (proj2
           (zero_value_exporter_returns_errors Background initial_world)))
           request_span [] request_document).
  vm_compute. reflexivity.
Defined.

(** ** Which spans are serialised *)

Lemma rmap_is_Ok {A C} (f : A -> result C) (p : A -> bool) l :
  (forall x, (exists y, f x = Ok y) <-> p x = true) ->
  (exists ys, rmap f l = Ok ys) <-> forallb p l = true.
Proof.
  intros Hf. induction l as [|x l IH]; cbn [rmap forallb].
  - split; [done|]. by eexists.
  - rewrite andb_true_iff, <- IH, <- Hf. split.
    + intros [ys H]. destruct (f x) as [y|]; [|done]. cbn [rbind] in H.
      destruct (rmap f l) as [ys'|]; [|done]. split; by eexists.
    + intros [[y ->] [ys ->]]. by eexists.
Qed.

Lemma encodeFloat_finite f : (exists b, encodeFloat f = Ok b) <-> finite f = true.
Proof.
  destruct f as [|[]|neg d dp]; cbn [encodeFloat finite].
  - split; [by intros [? ?]|done].
  - split; [by intros [? ?]|done].
  - split; [by intros [? ?]|done].
  - split; [done|]. intros _. destruct d; [by eexists|].
    destruct (_ || _); by eexists.
Qed.

Lemma encodeKeyValue_finite kv :
  (exists j, encodeKeyValue kv = Ok j) <-> finite_value (KeyValue_Value kv) = true.
Proof.
  unfold encodeKeyValue, Value_MarshalJSON.
  destruct (KeyValue_Value kv) as [| | |f| | | |l|];
    cbn [encodeInterface finite_value rbind];
    try (split; [done|]; intros _; by eexists).
  - rewrite <- encodeFloat_finite. unfold number_of_float.
    destruct (encodeFloat f); cbn [rbind].
    + split; intros _; by eexists.
    + split; by intros [? ?].
  - rewrite <- (rmap_is_Ok number_of_float finite l).
    + destruct (rmap number_of_float l); cbn [rbind].
      * split; intros _; by eexists.
      * split; by intros [? ?].
    + intros x. rewrite <- encodeFloat_finite. unfold number_of_float.
      destruct (encodeFloat x); cbn [rbind].
      * split; intros _; by eexists.
      * split; by intros [? ?].
Qed.

(** A zone below 24 hours passes the second check of
    [appendStrictRFC3339]. *)
Lemma zone_accepted P offset :
  offset = 0 \/ zone_hours offset <= 23 ->
  let b := P ++ appendZone offset in
  (if bool_decide (last b = Some "Z"%char) then None
   else
     match drop (length b - 6) b with
     | [c; h1; h0; _; _; _] =>
         if in_range 48 (byte_val c) 57
            || (24 <=? 10 * (byte_val h1 - 48) + (byte_val h0 - 48))
         then Some "timezone hour outside of range [0,23]"%string
         else None
     | _ => Some "timezone hour outside of range [0,23]"%string
     end) = None.
Proof.
  intros Hz b. subst b. unfold appendZone.
  destruct (Z.eqb_spec offset 0) as [|Hne].
  { cbn [B list_ascii_of_string]. by rewrite last_app_cons. }
  destruct Hz as [|Hh]; [done|]. cbn zeta.
  fold (zone_hours offset) (zone_minutes offset).
  pose proof (zone_minutes_range offset) as Hm.
  pose proof (zone_hours_nonneg offset) as Hh0.
  rewrite (appendInt_small (zone_minutes offset) 1)
    by (change (10 ^ Z.of_nat 2) with 100; lia).
  rewrite (appendInt_small (zone_hours offset) 1)
    by (change (10 ^ Z.of_nat 2) with 100; lia).
  rewrite !dec_2.
  set (hh := zone_hours offset) in *. set (mm := zone_minutes offset) in *.
  assert (Hsg : exists s, (if Z.quot offset 60 <? 0 then B "-" else B "+") = [s]
                          /\ in_range 48 (byte_val s) 57 = false).
  { destruct (_ <? 0); by eexists. }
  destruct Hsg as (s & -> & Hs). cbn [B list_ascii_of_string app].
  assert (HZ : last (P ++ [s; digit (hh / 10); digit hh; ":"%char;
                           digit (mm / 10); digit mm]) <> Some "Z"%char).
  { change [s; digit (hh / 10); digit hh; ":"%char; digit (mm / 10); digit mm]
      with ([s; digit (hh / 10); digit hh; ":"%char; digit (mm / 10)]
            ++ [digit mm]).
    rewrite app_assoc, last_app_cons. intros [= E].
    pose proof (digit_is_digit mm) as Hd. by rewrite E in Hd. }
  rewrite bool_decide_eq_false_2 by done.
  rewrite drop_app_length' by (rewrite length_app; cbn; lia).
  rewrite Hs, !byte_val_digit. cbn [orb].
  pose proof (two_digits hh ltac:(lia)).
  replace (24 <=? _) with false; [done|]. symmetry. apply Z.leb_gt. lia.
Qed.

Lemma encodeTime_accepts t :
  (exists j, encodeTime t = Ok j) <-> time_in_rfc3339 t = true.
Proof.
  unfold time_in_rfc3339. rewrite andb_true_iff, in_range_true, orb_true_iff.
  rewrite Z.eqb_eq, Z.leb_le. split.
  - intros [j Hj]. apply encodeTime_Ok in Hj. tauto.
  - intros [Hy Hz]. unfold encodeTime. cbn zeta.
    assert (E : strictRFC3339_error (appendFormatRFC3339 t) = None);
      [|rewrite E; by eexists].
    unfold strictRFC3339_error.
    assert (H4 : appendFormatRFC3339 t !! 4%nat = Some "-"%char).
    { unfold appendFormatRFC3339.
      rewrite (appendInt_small (t_year t) 3)
        by (change (10 ^ Z.of_nat 4) with 10000; lia).
      by rewrite dec_4. }
    rewrite (bool_decide_eq_true_2 _ H4). cbn [negb].
    unfold appendFormatRFC3339. rewrite !app_assoc.
    by apply zone_accepted.
Qed.

(** X11.  [json.MarshalIndent] refuses the map of a span exactly when one of
    its attributes holds a NaN or an infinity, or one of its two times has
    a year outside [0,9999] or a zone of 24 hours or more.  Nothing else
    about a span, its name included, makes the serialisation fail. *)
Theorem serialisable_spans span :
  (MarshalIndent (spanToMap span) "" "  ").2 = None
  <-> serialisable span = true.
Proof.
  rewrite MarshalIndent_spanToMap. unfold serialisable, span_document, span_object.
  rewrite !andb_true_iff, <- !encodeTime_accepts.
  rewrite <- (rmap_is_Ok encodeKeyValue _ _ encodeKeyValue_finite).
  destruct (Attributes span) as [kvs|]; unfold default; cbn [encodeAny from_option id rmap].
  - destruct (rmap encodeKeyValue kvs) as [js|]; cbn [rbind].
    + destruct (encodeTime (EndTime span)); cbn [rbind].
      * destruct (encodeTime (StartTime span)); cbn [rbind].
        -- split; [|done]. intros _. split; [split|]; by eexists.
        -- split; [done|]. by intros [_ [? ?]].
      * split; [done|]. by intros [[_ [? ?]] _].
    + split; [done|]. by intros [[[? ?] _] _].
  - cbn [rbind]. destruct (encodeTime (EndTime span)); cbn [rbind].
    + destruct (encodeTime (StartTime span)); cbn [rbind].
      * split; [|done]. intros _. split; [split|]; by eexists.
      * split; [done|]. by intros [_ [? ?]].
    + split; [done|]. by intros [[_ [? ?]] _].
Qed.
